(** * Neurostack [data_streams/data_stream.py]: the channel store and its
      LSL ingestion loop

    A shallow embedding of the [DataStream] class.  Python's list objects
    are mutable and shared by reference, so the embedding keeps an explicit
    heap of list objects: [self.channels] maps a channel name to the address
    of the channel's list, and every sample [[timestamp, value]] is a list
    object of its own, referred to from the channel's list.  Methods are
    state transformers that return a value or raise one of Python's
    exceptions. *)

From Stdlib Require Import Floats ZArith Lia.
From stdpp Require Import gmap strings list.

(** ** Numbers

    Timestamps and measurements are Python numbers.  The code compares them
    with [>] and adds them with [+], nothing else. *)

Class Number (T : Type) := {
  num_gt : T -> T -> bool;   (* [a > b] *)
  num_add : T -> T -> T;     (* [a + b] *)
  num_nan : T -> bool;       (* the one number [>] cannot order *)
}.

(** Python's [float]: IEEE 754 binary64. *)
#[export] Instance float_number : Number float := {|
  num_gt a b := PrimFloat.ltb b a;
  num_add a b := PrimFloat.add a b;
  num_nan a := PrimFloat.is_nan a;
|}.

(** Python's [int]. *)
#[export] Instance int_number : Number Z := {|
  num_gt a b := Z.ltb b a;
  num_add a b := Z.add a b;
  num_nan _ := false;
|}.

(** What makes [>] an order on the numbers that are not NaN: [a <= b <= c]
    gives [a <= c], and [a > b >= c] gives [a > c]. *)
Class NumberOrder (T : Type) `{Number T} : Prop := {
  le_le_trans a b c :
    num_nan a = false -> num_nan b = false -> num_nan c = false ->
    num_gt a b = false -> num_gt b c = false -> num_gt a c = false;
  gt_ge_trans a b c :
    num_nan a = false -> num_nan b = false -> num_nan c = false ->
    num_gt a b = true -> num_gt c b = false -> num_gt a c = true;
}.

(** ** Values, heap, exceptions *)

(** Addresses of list objects. *)
Abbreviation loc := nat (only parsing).

Inductive value (T : Type) :=
  | VNone
  | VNum (x : T)
  | VList (a : loc).
Arguments VNone {T}.
Arguments VNum {T} x.
Arguments VList {T} a.

Inductive exn :=
  | IndexError               (* list index out of range *)
  | KeyError (key : string)  (* [d[key]] on a missing key *)
  | TypeError                (* subscript or [>] on a value of the wrong kind *)
  | Exception (msg : string).

(** The result of running a piece of code: it returns, it raises, or the
    embedding has no Python behaviour to give (a loop out of fuel, an address
    outside the heap); the theorems show the last never happens. *)
Inductive outcome (A : Type) :=
  | Ret (x : A)
  | Raise (e : exn)
  | Undefined.
Arguments Ret {A} x.
Arguments Raise {A} e.
Arguments Undefined {A}.

#[export] Instance outcome_ret : MRet outcome := fun A x => Ret x.
#[export] Instance outcome_bind : MBind outcome := fun A B f m =>
  match m with
  | Ret x => f x
  | Raise e => Raise e
  | Undefined => Undefined
  end.

(** The interpreter state a [DataStream] lives in. *)
Record state (T : Type) := State {
  heap : list (list (value T));              (* list objects, by address *)
  channels : gmap string loc;                (* [self.channels] *)
  _eeg_thread : option nat;                  (* [self._eeg_thread] *)
  _eeg_thread_active : bool;                 (* [self._eeg_thread_active] *)
  _eeg_channel_names : option (list string); (* [self._eeg_channel_names] *)
  started : nat;                             (* threads started so far *)
  stdout : list string;                      (* lines printed so far *)
}.
Arguments State {T}.
Arguments heap {T}.
Arguments channels {T}.
Arguments _eeg_thread {T}.
Arguments _eeg_thread_active {T}.
Arguments _eeg_channel_names {T}.
Arguments started {T}.
Arguments stdout {T}.

Definition M (T A : Type) : Type := state T -> outcome A * state T.

#[export] Instance M_ret {T} : MRet (M T) := fun A x s => (Ret x, s).
#[export] Instance M_bind {T} : MBind (M T) := fun A B f m s =>
  match m s with
  | (Ret x, s') => f x s'
  | (Raise e, s') => (Raise e, s')
  | (Undefined, s') => (Undefined, s')
  end.

(** One sample set pulled from the inlet: [pull_sample()] and
    [time_correction()]. *)
Record pull (T : Type) := Pull {
  samples : list T;
  timestamp : T;
  time_correction : T;
}.
Arguments Pull {T}.
Arguments samples {T}.
Arguments timestamp {T}.
Arguments time_correction {T}.

(** ** The class [DataStream] *)

Module DataStream.
Section Methods.
Context {T : Type} `{Number T}.

Definition get_state : M T (state T) := fun s => (Ret s, s).
Definition raise {A} (e : exn) : M T A := fun s => (Raise e, s).
Definition lift {A} (o : outcome A) : M T A := fun s => (o, s).

(** [print(line)] *)
Definition print (line : string) : M T unit := fun s =>
  (Ret tt,
   State (heap s) (channels s) (_eeg_thread s) (_eeg_thread_active s)
         (_eeg_channel_names s) (started s) (stdout s ++ [line])).

(** A list display or a slice: a new list object, at a new address. *)
Definition new_list (xs : list (value T)) : M T loc := fun s =>
  (Ret (length (heap s)),
   State (heap s ++ [xs]) (channels s) (_eeg_thread s) (_eeg_thread_active s)
         (_eeg_channel_names s) (started s) (stdout s)).

(** [xs.append(x)] on the list object at [a]: the object changes in place. *)
Definition list_append (a : loc) (x : value T) : M T unit := fun s =>
  match heap s !! a with
  | Some xs =>
      (Ret tt,
       State (<[a := xs ++ [x]]> (heap s)) (channels s) (_eeg_thread s)
             (_eeg_thread_active s) (_eeg_channel_names s) (started s)
             (stdout s))
  | None => (Undefined, s)
  end.

Definition set_channels (d : gmap string loc) : M T unit := fun s =>
  (Ret tt,
   State (heap s) d (_eeg_thread s) (_eeg_thread_active s)
         (_eeg_channel_names s) (started s) (stdout s)).

(** [xs[i]] for a list [xs] and [0 <= i]. *)
Definition item {A} (xs : list A) (i : nat) : outcome A :=
  match xs !! i with
  | Some x => Ret x
  | None => Raise IndexError
  end.

(** [v[i]] for any value [v]: only lists can be subscripted. *)
Definition subscript (h : list (list (value T))) (v : value T) (i : nat)
  : outcome (value T) :=
  match v with
  | VList a =>
      match h !! a with
      | Some xs => item xs i
      | None => Undefined
      end
  | _ => Raise TypeError
  end.

(** [t > v] for a number [t] and any value [v]. *)
Definition gt_value (t : T) (v : value T) : outcome bool :=
  match v with
  | VNum x => Ret (num_gt t x)
  | _ => Raise TypeError
  end.

(** [t > xs[i][0]], the test of both loops of [get_data]. *)
Definition later_than (h : list (list (value T))) (xs : list (value T))
    (t : T) (i : nat) : outcome bool :=
  x ← item xs i; y ← subscript h x 0; gt_value t y.

(** [__init__] *)
Definition init : state T :=
  State [] ∅ None false None 0 [].

(** [lsl_connect], given the labels the resolved stream advertises (stream
    resolution itself is pylsl's). *)
Definition lsl_connect (ch_names : list string) : M T unit := fun s =>
  (Ret tt,
   State (heap s) (channels s) (_eeg_thread s) (_eeg_thread_active s)
         (Some ch_names) (started s) (stdout s)).

(** [lsl_start]: sets the flag, creates a thread and starts it.  The body of
    the thread is [_record_lsl_data_indefinitely] below. *)
Definition lsl_start : M T unit := fun s =>
  (Ret tt,
   State (heap s) (channels s) (Some (started s)) true
         (_eeg_channel_names s) (S (started s)) (stdout s)).

(** [lsl_stop] *)
Definition lsl_stop : M T unit := fun s =>
  (Ret tt,
   State (heap s) (channels s) None false
         (_eeg_channel_names s) (started s) (stdout s)).

(** [list_channels]: the keys of [self.channels] (gmap's order of keys, not
    Python's order of insertion; the class only tests membership). *)
Definition list_channels : M T (list string) :=
  s ← get_state; mret (map_to_list (channels s)).*1.

(** [add_channel] *)
Definition add_channel (name : string) : M T unit :=
  s ← get_state;
  match channels s !! name with
  | Some _ => print ("Channel with name " +:+ name +:+ " already exists")
  | None => a ← new_list []; set_channels (<[name := a]> (channels s))
  end.

(** [remove_channel] *)
Definition remove_channel (name : string) : M T unit :=
  s ← get_state;
  match channels s !! name with
  | None => print ("Channel with name " +:+ name +:+ " does not exist")
  | Some _ => set_channels (delete name (channels s))
  end.

(** [close] *)
Definition close : M T unit := set_channels ∅.

(** [add_data] *)
Definition add_data (channel : string) (data : value T) : M T unit :=
  s ← get_state;
  match channels s !! channel with
  | Some a => list_append a data
  | None => print ("A channel with name " +:+ channel +:+ " does not exist")
  end.

(** [has_data] *)
Definition has_data (channel : string) : M T bool :=
  s ← get_state;
  match channels s !! channel with
  | Some a =>
      match heap s !! a with
      | Some xs => mret (negb (length xs =? 0))
      | None => lift Undefined
      end
  | None => mret (negb (length (@nil (value T)) =? 0))
  end.

(** The first loop of [get_data]:
    [while start_time > self.channels[channel][start][0]].  [None] is the
    [return []] inside the loop. *)
Fixpoint find_start (h : list (list (value T))) (xs : list (value T))
    (start_time : T) (fuel start : nat) : outcome (option nat) :=
  match fuel with
  | 0 => Undefined
  | S fuel =>
      c ← later_than h xs start_time start;
      if c : bool then
        let start := S start in
        if start =? length xs then Ret None
        else find_start h xs start_time fuel start
      else Ret (Some start)
  end.

(** The second loop:
    [while end < len(...) and stop_time > self.channels[channel][end][0]]. *)
Fixpoint find_end (h : list (list (value T))) (xs : list (value T))
    (stop_time : T) (fuel end_ : nat) : outcome nat :=
  match fuel with
  | 0 => Undefined
  | S fuel =>
      if end_ <? length xs then
        c ← later_than h xs stop_time end_;
        if c : bool then find_end h xs stop_time fuel (S end_)
        else Ret end_
      else Ret end_
  end.

(** [xs[start:end_]] for [0 <= start] and [0 <= end_]. *)
Definition slice {A} (xs : list A) (start end_ : nat) : list A :=
  drop start (take end_ xs).

(** [get_data] when [channels] is not a list: one channel. *)
Definition get_data_channel (channel : string)
    (start_time duration : option T) : M T loc :=
  s ← get_state;
  match channels s !! channel with
  | None =>
      raise (Exception
               ("A channel with name " +:+ channel +:+ " does not exist"))
  | Some a =>
      match heap s !! a with
      | None => lift Undefined
      | Some xs =>
          match start_time with
          | None => new_list xs
          | Some start_time =>
              r ← lift (find_start (heap s) xs start_time (S (length xs)) 0);
              match r with
              | None => new_list []
              | Some start =>
                  match duration with
                  | None => new_list (drop start xs)
                  | Some duration =>
                      let stop_time := num_add start_time duration in
                      end_ ← lift (find_end (heap s) xs stop_time
                                     (S (length xs)) start);
                      new_list (slice xs start end_)
                  end
              end
          end
      end
  end.

(** [get_data] when [channels] is a list: the loop that fills
    [return_data]. *)
Fixpoint get_data_each (chs : list string) (start_time duration : option T)
    (return_data : gmap string loc) : M T (gmap string loc) :=
  match chs with
  | [] => mret return_data
  | channel :: chs =>
      r ← get_data_channel channel start_time duration;
      get_data_each chs start_time duration (<[channel := r]> return_data)
  end.

(** [get_data]: [isinstance(channels, list)] chooses between the two. *)
Definition get_data (chs : string + list string)
    (start_time duration : option T) : M T (loc + gmap string loc) :=
  match chs with
  | inl channel =>
      r ← get_data_channel channel start_time duration; mret (inl r)
  | inr chs =>
      d ← get_data_each chs start_time duration ∅; mret (inr d)
  end.

(** [get_latest_data] when [channels] is not a list:
    [self.channels[channels][-1]]. *)
Definition get_latest_data_channel (channel : string) : M T (value T) :=
  s ← get_state;
  match channels s !! channel with
  | None => raise (KeyError channel)
  | Some a =>
      match heap s !! a with
      | None => lift Undefined
      | Some xs =>
          match last xs with
          | Some x => mret x
          | None => raise IndexError
          end
      end
  end.

(** [get_latest_data] when [channels] is a list. *)
Fixpoint get_latest_data_each (chs : list string)
    (return_data : gmap string (value T)) : M T (gmap string (value T)) :=
  match chs with
  | [] => mret return_data
  | channel :: chs =>
      s ← get_state;
      match channels s !! channel with
      | Some a =>
          match heap s !! a with
          | None => lift Undefined
          | Some [] =>
              e ← new_list [];
              get_latest_data_each chs (<[channel := VList e]> return_data)
          | Some _ =>
              x ← get_latest_data_channel channel;
              get_latest_data_each chs (<[channel := x]> return_data)
          end
      | None =>
          _ ← print ("A channel with name " +:+ channel +:+ " does not exist");
          get_latest_data_each chs return_data
      end
  end.

Definition get_latest_data (chs : string + list string)
  : M T (value T + gmap string (value T)) :=
  match chs with
  | inl channel => x ← get_latest_data_channel channel; mret (inl x)
  | inr chs => d ← get_latest_data_each chs ∅; mret (inr d)
  end.

(** [for x in xs: body] *)
Fixpoint for_each {A} (xs : list A) (body : A -> M T unit) : M T unit :=
  match xs with
  | [] => mret tt
  | x :: xs => _ ← body x; for_each xs body
  end.

(** The body of [for i in range(len(samples))], for the sample set [p] the
    inlet hands over:
    [self.add_data(self._eeg_channel_names[i],
                   [timestamp + time_correction] + [samples[i]])].
    Of the three lists the expression builds, the two operands of [+] are
    dropped at once; only the sum is given an address. *)
Definition record_sample (p : pull T) (i : nat) : M T unit :=
  s ← get_state;
  name ← lift (match _eeg_channel_names s with
               | Some names => item names i
               | None => Raise TypeError
               end);
  x ← lift (item (samples p) i);
  data ← new_list [VNum (num_add (timestamp p) (time_correction p)); VNum x];
  add_data name (VList data).

(** One turn of the [while] loop of [_record_lsl_data_indefinitely]. *)
Definition record_pull (p : pull T) : M T unit :=
  for_each (seq 0 (length (samples p))) (record_sample p).

(** [while self._eeg_thread_active:] over the sample sets the inlet
    delivers.  When the inlet has no more, [pull_sample] blocks and the
    thread goes no further. *)
Fixpoint record_loop (inlet : list (pull T)) : M T unit :=
  match inlet with
  | [] => mret tt
  | p :: inlet =>
      s ← get_state;
      if _eeg_thread_active s then _ ← record_pull p; record_loop inlet
      else mret tt
  end.

(** The body of [for channel_name in self._eeg_channel_names]:
    [if channel_name not in self.list_channels():
         self.add_channel(channel_name)]. *)
Definition create_channel (channel_name : string) : M T unit :=
  chs ← list_channels;
  if existsb (String.eqb channel_name) chs then mret tt
  else add_channel channel_name.

(** [_record_lsl_data_indefinitely], the body of the thread. *)
Definition _record_lsl_data_indefinitely (inlet : list (pull T))
  : M T unit :=
  s ← get_state;
  names ← lift (match _eeg_channel_names s with
                | Some names => Ret names
                | None => Raise TypeError
                end);
  _ ← for_each names create_channel;
  record_loop inlet.

(** [get_eeg_data]: [get_data] on [self._eeg_channel_names].  Before
    [lsl_connect] the attribute is [None], which is not a list: [get_data]
    takes it for the name of one channel, and no channel has that name
    (names are strings here), so it raises with [None] printed in the
    message. *)
Definition get_eeg_data (start_time duration : option T)
  : M T (loc + gmap string loc) :=
  s ← get_state;
  match _eeg_channel_names s with
  | Some names => get_data (inr names) start_time duration
  | None => raise (Exception "A channel with name None does not exist")
  end.

(** [find_start] again, counting how many times the loop's test is
    evaluated, that is, how many timestamps are read and compared. *)
Fixpoint find_start_counting (h : list (list (value T)))
    (xs : list (value T)) (start_time : T) (fuel start tests : nat)
  : outcome (option nat) * nat :=
  match fuel with
  | 0 => (Undefined, tests)
  | S fuel =>
      let tests := S tests in
      match later_than h xs start_time start with
      | Ret true =>
          let start := S start in
          if start =? length xs then (Ret None, tests)
          else find_start_counting h xs start_time fuel start tests
      | Ret false => (Ret (Some start), tests)
      | Raise e => (Raise e, tests)
      | Undefined => (Undefined, tests)
      end
  end.
End Methods.
End DataStream.

Import DataStream.

(** ** Vocabulary of the properties *)

Section Vocabulary.
Context {T : Type} `{Number T}.

(** The timestamp of a sample [[timestamp, value, ...]]. *)
Definition sample_time (h : list (list (value T))) (v : value T) : option T :=
  match v with
  | VList a =>
      match h !! a with
      | Some (VNum t :: _) => Some t
      | _ => None
      end
  | _ => None
  end.

(** The timestamps of a channel, when all its entries are samples. *)
Definition times (h : list (list (value T))) (xs : list (value T))
  : option (list T) :=
  mapM (sample_time h) xs.

(** Non-decreasing: no timestamp is greater than its successor. *)
Fixpoint non_decreasing (ts : list T) : bool :=
  match ts with
  | a :: (b :: _) as rest => negb (num_gt a b) && non_decreasing rest
  | _ => true
  end.

(** Sorted by timestamp: numbers that can be ordered, in non-decreasing
    order. *)
Definition sorted_times (ts : list T) : bool :=
  forallb (fun t => negb (num_nan t)) ts && non_decreasing ts.

(** [start <= timestamp < stop] *)
Definition in_window (h : list (list (value T))) (start stop : T)
    (v : value T) : bool :=
  match sample_time h v with
  | Some t => negb (num_gt start t) && num_gt stop t
  | None => false
  end.


(** What a caller can do to a list it holds: put any contents in place of
    the list's (append, pop, item or slice assignment, clear, sort ...).
    The list is any list the caller can reach: with [r] a list a query
    returned, [r.clear()] is a write at the address of [r], and
    [r[0][0] = 99.0] is a write at the address of its first entry. *)
Definition mutate_list (a : loc) (xs : list (value T)) (s : state T)
  : state T :=
  State (<[a := xs]> (heap s)) (channels s) (_eeg_thread s)
        (_eeg_thread_active s) (_eeg_channel_names s) (started s) (stdout s).

(** The contents of a channel, as the store holds them. *)
Definition channel_data (s : state T) (name : string)
  : option (list (value T)) :=
  a ← channels s !! name; heap s !! a.

(** Every address a value refers to is an address of the heap. *)
Definition closed_value (n : nat) (v : value T) : bool :=
  match v with
  | VList a => a <? n
  | _ => true
  end.

(** The states a Python program can be in: no list and no channel refers
    outside the heap. *)
Definition well_formed (s : state T) : bool :=
  forallb (forallb (closed_value (length (heap s)))) (heap s) &&
  forallb (fun na => na.2 <? length (heap s)) (map_to_list (channels s)).

(** What the pulls [ps] report for the channel of index [i]: for each pull
    that has a value at [i], the corrected timestamp and the value. *)
Definition reported (i : nat) (ps : list (pull T)) : list (T * T) :=
  omap (fun p =>
          x ← samples p !! i;
          Some (num_add (timestamp p) (time_correction p), x)) ps.

(** Distinct names are held under distinct lists. *)
Definition separate_channels (s : state T) : Prop :=
  forall n1 n2 a,
    channels s !! n1 = Some a -> channels s !! n2 = Some a -> n1 = n2.

(** [s] with the lists [new] added to the heap, and nothing else changed. *)
Definition with_new_lists (s : state T) (new : list (list (value T)))
  : state T :=
  State (heap s ++ new) (channels s) (_eeg_thread s) (_eeg_thread_active s)
        (_eeg_channel_names s) (started s) (stdout s).

(** [s] with the lines [out] printed, and nothing else changed. *)
Definition with_output (s : state T) (out : list string) : state T :=
  State (heap s) (channels s) (_eeg_thread s) (_eeg_thread_active s)
        (_eeg_channel_names s) (started s) (stdout s ++ out).

(** The line [get_latest_data] and [add_data] print for a missing name. *)
Definition missing_line (name : string) : string :=
  "A channel with name " +:+ name +:+ " does not exist".

(** A well-formed store in which each name has a list of its own. *)
Definition store_ok (s : state T) : Prop :=
  well_formed s = true /\ separate_channels s.

(** A step of a program that uses the class: a call of a method, a run of
    its thread, or the caller's own work on lists, which is how the values
    given to [add_data] come to be ([stream.add_data(name, [t, x])] builds
    the list [[t, x]] first) and how a list a query returned, or a sample
    reached through it, is written to afterwards. *)
Inductive call :=
  | NewList (items : list (value T))
  | SetList (a : loc) (items : list (value T))
  | AddChannel (name : string)
  | RemoveChannel (name : string)
  | Close
  | AddData (channel : string) (data : value T)
  | GetData (chs : string + list string) (start_time duration : option T)
  | GetEegData (start_time duration : option T)
  | GetLatestData (chs : string + list string)
  | HasData (channel : string)
  | ListChannels
  | LslConnect (ch_names : list string)
  | LslStart
  | LslStop
  | RecordThread (inlet : list (pull T)).

(** The state a call leaves, whether it returns or raises. *)
Definition perform (c : call) (s : state T) : state T :=
  match c with
  | NewList items => (new_list items s).2
  | SetList a items => mutate_list a items s
  | AddChannel name => (add_channel name s).2
  | RemoveChannel name => (remove_channel name s).2
  | Close => (close s).2
  | AddData channel data => (add_data channel data s).2
  | GetData chs start_time duration => (get_data chs start_time duration s).2
  | GetEegData start_time duration => (get_eeg_data start_time duration s).2
  | GetLatestData chs => (get_latest_data chs s).2
  | HasData channel => (has_data channel s).2
  | ListChannels => (list_channels s).2
  | LslConnect ch_names => (lsl_connect ch_names s).2
  | LslStart => (lsl_start s).2
  | LslStop => (lsl_stop s).2
  | RecordThread inlet => (_record_lsl_data_indefinitely inlet s).2
  end.

(** A step the caller can make: the list it writes to and the values it
    puts in a list or gives to [add_data] exist. *)
Definition admissible (s : state T) (c : call) : bool :=
  match c with
  | NewList items => forallb (closed_value (length (heap s))) items
  | SetList a items =>
      (a <? length (heap s)) &&
      forallb (closed_value (length (heap s))) items
  | AddData _ data => closed_value (length (heap s)) data
  | _ => true
  end.

(** The state after a sequence of steps the caller can make. *)
Fixpoint perform_all (calls : list call) (s : state T) : option (state T) :=
  match calls with
  | [] => Some s
  | c :: calls =>
      if admissible s c then perform_all calls (perform c s) else None
  end.

(** The loop of the thread with the owner of the stream at work beside it.
    The loop reads [self._eeg_thread_active] at the head of a turn and
    nowhere else; [pull_sample] then waits for the inlet, and the turn
    appends what it delivers.  With each sample set, [inlet] says whether
    the owner called [lsl_stop] while the thread waited for it. *)
Fixpoint record_loop_with_stops (inlet : list (pull T * bool))
  : M T unit :=
  match inlet with
  | [] => mret tt
  | (p, stopped) :: inlet =>
      s ← get_state;
      if _eeg_thread_active s then
        _ ← (if stopped then lsl_stop else mret tt);
        _ ← record_pull p;
        record_loop_with_stops inlet
      else mret tt
  end.
End Vocabulary.

(** ** Stores the examples run on *)

Section Scenarios.
Context {T : Type} `{Number T}.

(** [stream.add_data(name, [t, x])] *)
Definition add_sample (name : string) (t x : T) : M T unit :=
  data ← new_list [VNum t; VNum x]; add_data name (VList data).

(** A new stream with one channel ["ch"], empty. *)
Definition empty_channel_store : state T :=
  (add_channel "ch" init).2.

(** The same with one sample appended for each of the timestamps. *)
Definition store_with (ts : list T) : state T :=
  (for_each ts (fun t => add_sample "ch" t t) empty_channel_store).2.
End Scenarios.

(** Timestamps [0, 1, 2, 3, 4, 5]. *)
Definition store_0_to_5 : state float :=
  store_with [0; 1; 2; 3; 4; 5]%float.

(** The list of channel ["ch"] in [store_0_to_5]. *)
Definition channel_0_to_5 : list (value float) :=
  [VList 1; VList 2; VList 3; VList 4; VList 5; VList 6].

(** A heap with one sample, timestamped 0, and a channel list that holds it
    [n] times: what [d = [0.0, 0.0]] followed by [n] calls of
    [add_data("ch", d)] leaves. *)
Definition repeated_heap (n : nat) : list (list (value float)) :=
  [replicate n (VList 1); [VNum 0%float; VNum 0%float]].

(** The number of tests the start-index search makes on that channel for the
    start time 1, which is later than every sample. *)
Definition late_query_tests (n : nat) : nat :=
  (find_start_counting (repeated_heap n) (replicate n (VList 1)) 1%float
     (S n) 0 0).2.

(** A source of two channels and three pulls, with timestamps 10, 11, 12 and
    a clock correction of 0.5. *)
Definition scenario_pulls : list (pull float) :=
  [Pull [1; 2] 10 0.5; Pull [3; 4] 11 0.5; Pull [5; 6] 12 0.5]%float.

(** A stream connected to that source and started, when its thread has
    created the channels and is about to pull. *)
Definition scenario_ready : state float :=
  ((_ ← lsl_connect ["C1"; "C2"]; _ ← lsl_start;
    _record_lsl_data_indefinitely []) init).2.

(** Connect, start, let the thread take the three pulls, stop, query
    ["C1"]. *)
Definition end_to_end : M float (loc + gmap string loc) :=
  _ ← lsl_connect ["C1"; "C2"];
  _ ← lsl_start;
  _ ← _record_lsl_data_indefinitely scenario_pulls;
  _ ← lsl_stop;
  get_data (inl "C1") None None.

(** The same stream when [lsl_start] has returned and the thread has not
    run yet. *)
Definition scenario_started : state float :=
  ((_ ← lsl_connect ["C1"; "C2"]; lsl_start) init).2.

(** The same stream when the thread has taken the three pulls. *)
Definition scenario_done : state float :=
  (record_loop scenario_pulls scenario_ready).2.

(** Samples appended out of order: timestamps [2, 0, 2.5]. *)
Definition unsorted_store : state float :=
  store_with [2; 0; 2.5]%float.

(** A channel that was given a number, [add_data("ch", 5.0)]. *)
Definition number_store : state float :=
  (add_data "ch" (VNum 5%float) empty_channel_store).2.

(** A session: a channel is created; [add_data("ch", [1.0, 7.0])] and
    [add_data("ch", [2.0, 8.0])], each on a list built for the call; the
    channel is read, the first sample is written to through the list
    returned ([r[0][0] = 99.0]) and that list is cleared; a number is
    appended; the channel is removed and a stream is recorded. *)
Definition example_calls : list (call (T := float)) :=
  [AddChannel "ch";
   NewList [VNum 1%float; VNum 7%float]; AddData "ch" (VList 1);
   NewList [VNum 2%float; VNum 8%float]; AddData "ch" (VList 2);
   GetData (inl "ch") None None;
   SetList 1 [VNum 99%float; VNum 7%float]; SetList 3 [];
   AddData "ch" (VNum 1%float);
   GetLatestData (inr ["ch"; "nope"]); RemoveChannel "ch";
   LslConnect ["C1"; "C2"]; LslStart; RecordThread scenario_pulls;
   GetEegData None None; LslStop; Close].

(** The timestamps of the list a query returned. *)
Definition returned_times {T : Type}
    (r : outcome (loc + gmap string loc) * state T) : option (list T) :=
  match r with
  | (Ret (inl a), s) => xs ← heap s !! a; times (heap s) xs
  | _ => None
  end.

(** ** Python's numbers are ordered by [>] *)

Section FloatOrder.
Local Ltac compare_cases :=
  repeat match goal with
  | |- context [Z.compare ?a ?b] => destruct (Z.compare_spec a b)
  | H : context [Z.compare ?a ?b] |- _ => destruct (Z.compare_spec a b)
  | |- context [Pos.compare ?a ?b] => destruct (Pos.compare_spec a b)
  | H : context [Pos.compare ?a ?b] |- _ => destruct (Pos.compare_spec a b)
  end.

Local Ltac by_cases x y z :=
  unfold SFltb, SFcompare;
  destruct x as [[]|[]| |[] ? ?], y as [[]|[]| |[] ? ?], z as [[]|[]| |[] ? ?];
  intros; simpl in *; try congruence;
  change (Pos.compare_cont Eq ?a ?b) with (Pos.compare a b) in *;
  compare_cases; simpl in *; try congruence; lia.

Lemma SFltb_le_le_trans (x y z : spec_float) :
  x <> S754_nan -> y <> S754_nan -> z <> S754_nan ->
  SFltb y x = false -> SFltb z y = false -> SFltb z x = false.
Proof. by_cases x y z. Qed.

Lemma SFltb_lt_le_trans (x y z : spec_float) :
  x <> S754_nan -> y <> S754_nan -> z <> S754_nan ->
  SFltb y x = true -> SFltb y z = false -> SFltb z x = true.
Proof. by_cases x y z. Qed.

Lemma is_nan_Prim2SF (x : float) :
  PrimFloat.is_nan x = false -> Prim2SF x <> S754_nan.
Proof.
  unfold PrimFloat.is_nan. rewrite negb_false_iff, FloatAxioms.eqb_spec.
  intros Heq Hnan. rewrite Hnan in Heq. discriminate.
Qed.
End FloatOrder.

#[export] Instance float_order : NumberOrder float.
Proof.
  split; simpl; intros a b c Ha Hb Hc; rewrite !FloatAxioms.ltb_spec;
    apply is_nan_Prim2SF in Ha, Hb, Hc.
  - by apply SFltb_le_le_trans.
  - by apply SFltb_lt_le_trans.
Qed.

#[export] Instance int_order : NumberOrder Z.
Proof. split; simpl; intros a b c _ _ _; lia. Qed.

(** ** Properties *)

Ltac run :=
  unfold mbind, M_bind, mret, M_ret, get_state, raise, lift, new_list, print,
    set_channels; simpl.

Section Lists.
Context {A : Type}.

(** A predicate that holds exactly between two indices selects a slice. *)
Lemma filter_slice (P : A -> bool) (xs : list A) (k e : nat) :
  (forall i x, xs !! i = Some x -> P x = true <-> k <= i < e) ->
  List.filter P xs = slice xs k e.
Proof.
  unfold slice. revert k e. induction xs as [|x xs IH]; intros k e HP.
  - by rewrite take_nil, drop_nil.
  - simpl. destruct (P x) eqn:Px.
    + pose proof (proj1 (HP 0 x eq_refl) Px) as [Hk He].
      assert (k = 0) as -> by lia. destruct e as [|e]; [lia|].
      simpl. f_equal. rewrite (IH 0 e); [done|].
      intros i y Hy. rewrite (HP (S i) y Hy). lia.
    + destruct e as [|e].
      * rewrite (IH 0 0); [by rewrite !take_0, !drop_nil|].
        intros i y Hy. rewrite (HP (S i) y Hy). lia.
      * destruct k as [|k].
        { assert (P x = true) by (apply (HP 0 x eq_refl); lia). congruence. }
        simpl. apply IH. intros i y Hy. rewrite (HP (S i) y Hy). lia.
Qed.
End Lists.

Section Channels.
Context {T : Type} `{NumberOrder T}.
Implicit Types (h : list (list (value T))) (xs : list (value T))
  (ts : list T) (s : state T).

Lemma times_length h xs ts : times h xs = Some ts -> length ts = length xs.
Proof.
  unfold times. rewrite mapM_Some. intros HF. symmetry.
  by eapply Forall2_length.
Qed.

Lemma times_lookup h xs ts i t :
  times h xs = Some ts -> ts !! i = Some t ->
  exists v, xs !! i = Some v /\ sample_time h v = Some t.
Proof.
  unfold times. rewrite mapM_Some. intros HF Ht.
  destruct (Forall2_lookup_r _ _ _ _ _ HF Ht) as (v & Hv & Hs). eauto.
Qed.

Lemma sample_time_subscript h v t :
  sample_time h v = Some t -> subscript h v 0 = Ret (VNum t).
Proof.
  destruct v as [| |a]; simpl; try done.
  destruct (h !! a) as [[|[| x |] ys]|]; simpl; try done.
  by intros [= ->].
Qed.

(** On a channel of samples, a loop test reads the timestamp at its index. *)
Lemma later_than_times h xs ts t0 i t :
  times h xs = Some ts -> ts !! i = Some t ->
  later_than h xs t0 i = Ret (num_gt t0 t).
Proof.
  intros Hts Ht. destruct (times_lookup _ _ _ _ _ Hts Ht) as (v & Hv & Hs).
  unfold later_than, item. rewrite Hv. simpl.
  unfold mbind, outcome_bind. by rewrite (sample_time_subscript _ _ _ Hs).
Qed.

Lemma find_start_S h xs t0 fuel start :
  find_start h xs t0 (S fuel) start =
    c ← later_than h xs t0 start;
    if c : bool then
      if S start =? length xs then Ret None
      else find_start h xs t0 fuel (S start)
    else Ret (Some start).
Proof. reflexivity. Qed.

Lemma find_end_S h xs stop fuel e :
  find_end h xs stop (S fuel) e =
    if e <? length xs then
      c ← later_than h xs stop e;
      if c : bool then find_end h xs stop fuel (S e) else Ret e
    else Ret e.
Proof. reflexivity. Qed.

Lemma find_start_spec h xs ts t0 :
  times h xs = Some ts ->
  forall fuel start,
    start < length ts -> length ts - start <= fuel ->
    exists r, find_start h xs t0 fuel start = Ret r /\
      match r with
      | Some k =>
          start <= k < length ts /\
          (exists t, ts !! k = Some t /\ num_gt t0 t = false) /\
          (forall i t, start <= i < k -> ts !! i = Some t -> num_gt t0 t = true)
      | None =>
          forall i t, start <= i -> ts !! i = Some t -> num_gt t0 t = true
      end.
Proof.
  intros Hts. pose proof (times_length _ _ _ Hts) as Hlen.
  induction fuel as [|fuel IH]; intros start Hlt Hfuel; [lia|].
  destruct (lookup_lt_is_Some_2 ts start Hlt) as [t Ht].
  rewrite find_start_S, (later_than_times _ _ _ _ _ _ Hts Ht).
  unfold mbind, outcome_bind. destruct (num_gt t0 t) eqn:Hgt.
  - destruct (Nat.eqb_spec (S start) (length xs)) as [Heq|Hne].
    + exists None. split; [done|]. intros i t' Hi Hi'.
      apply lookup_lt_Some in Hi' as Hi''.
      assert (i = start) as -> by lia. congruence.
    + destruct (IH (S start)) as (r & -> & Hr); [lia..|].
      exists r. split; [done|]. destruct r as [k|].
      * destruct Hr as (Hk & Hex & Hbefore). split; [lia|]. split; [done|].
        intros i t' Hi Hi'. destruct (decide (i = start)) as [->|].
        { congruence. } { apply (Hbefore i); [lia|done]. }
      * intros i t' Hi Hi'. destruct (decide (i = start)) as [->|].
        { congruence. } { apply (Hr i); [lia|done]. }
  - exists (Some start). split; [done|]. split; [lia|]. split; [eauto|].
    intros; lia.
Qed.

Lemma find_end_spec h xs ts stop :
  times h xs = Some ts ->
  forall fuel e,
    e <= length ts -> length ts - e < fuel ->
    exists e', find_end h xs stop fuel e = Ret e' /\
      e <= e' <= length ts /\
      (forall i t, e <= i < e' -> ts !! i = Some t -> num_gt stop t = true) /\
      (forall t, ts !! e' = Some t -> num_gt stop t = false).
Proof.
  intros Hts. pose proof (times_length _ _ _ Hts) as Hlen.
  induction fuel as [|fuel IH]; intros e Hle Hfuel; [lia|].
  rewrite find_end_S. destruct (Nat.ltb_spec e (length xs)) as [Hlt|Hge].
  - destruct (lookup_lt_is_Some_2 ts e) as [t Ht]; [lia|].
    rewrite (later_than_times _ _ _ _ _ _ Hts Ht).
    unfold mbind, outcome_bind. destruct (num_gt stop t) eqn:Hgt.
    + destruct (IH (S e)) as (e' & -> & He' & Hin & Hout); [lia..|].
      exists e'. split; [done|]. split; [lia|]. split; [|done].
      intros i t' Hi Hi'. destruct (decide (i = e)) as [->|].
      { congruence. } { apply (Hin i); [lia|done]. }
    + exists e. split; [done|]. split; [lia|]. split; [intros; lia|].
      congruence.
  - exists e. split; [done|]. split; [lia|]. split; [intros; lia|].
    intros t Ht. apply lookup_lt_Some in Ht. lia.
Qed.

Lemma times_lookup_l h xs ts i v :
  times h xs = Some ts -> xs !! i = Some v ->
  exists t, ts !! i = Some t /\ sample_time h v = Some t.
Proof.
  unfold times. rewrite mapM_Some. intros HF Hv.
  destruct (Forall2_lookup_l _ _ _ _ _ HF Hv) as (t & Ht & Hs). eauto.
Qed.

Lemma sorted_times_nan ts i t :
  sorted_times ts = true -> ts !! i = Some t -> num_nan t = false.
Proof.
  unfold sorted_times. rewrite andb_true_iff, forallb_forall.
  intros [Hnan _] Ht. apply negb_true_iff, Hnan.
  apply list_elem_of_In, list_elem_of_lookup. eauto.
Qed.

Lemma sorted_times_tail t ts :
  sorted_times (t :: ts) = true -> sorted_times ts = true.
Proof.
  unfold sorted_times. simpl. rewrite !andb_true_iff.
  intros [[_ Hnan] Hnd]. split; [done|].
  destruct ts; [done|]. by apply andb_true_iff in Hnd as [_ ?].
Qed.

(** In a sorted sequence no timestamp is greater than a later one. *)
Lemma sorted_times_le ts i j x y :
  sorted_times ts = true -> i < j ->
  ts !! i = Some x -> ts !! j = Some y -> num_gt x y = false.
Proof.
  revert i j x y. induction ts as [|a ts IH]; intros i j x y Hs Hij Hx Hy.
  { done. }
  destruct i as [|i], j as [|j]; try lia; simpl in *.
  - injection Hx as ->. clear Hij. revert j y Hy.
    destruct ts as [|b ts]; [done|]. intros j y Hy.
    assert (num_gt x b = false) as Hxb.
    { unfold sorted_times in Hs. simpl in Hs.
      rewrite !andb_true_iff in Hs. by apply negb_true_iff, Hs. }
    destruct j as [|j]; simpl in Hy; [congruence|].
    assert (num_gt b y = false) as Hby.
    { apply (IH 0 (S j)); [by eapply sorted_times_tail|lia|done..]. }
    apply (le_le_trans x b y); [|..|done|done].
    + by apply (sorted_times_nan _ 0 _ Hs).
    + by apply (sorted_times_nan _ 1 _ Hs).
    + by apply (sorted_times_nan _ (S (S j)) _ Hs).
  - apply (IH i j); [by eapply sorted_times_tail|lia|done..].
Qed.
End Channels.

#[local] Arguments find_start : simpl never.
#[local] Arguments find_end : simpl never.
#[local] Arguments slice : simpl never.

Section Query.
Context {T : Type} `{NumberOrder T}.
Implicit Types (h : list (list (value T))) (xs : list (value T))
  (ts : list T) (s : state T).

Lemma get_data_channel_found s name a xs start_time duration :
  channels s !! name = Some a -> heap s !! a = Some xs ->
  get_data_channel name start_time duration s =
    match start_time with
    | None => new_list xs s
    | Some t0 =>
        match find_start (heap s) xs t0 (S (length xs)) 0 with
        | Ret None => new_list [] s
        | Ret (Some start) =>
            match duration with
            | None => new_list (drop start xs) s
            | Some d =>
                match find_end (heap s) xs (num_add t0 d) (S (length xs))
                        start with
                | Ret e => new_list (slice xs start e) s
                | Raise e => (Raise e, s)
                | Undefined => (Undefined, s)
                end
            end
        | Raise e => (Raise e, s)
        | Undefined => (Undefined, s)
        end
    end.
Proof.
  intros Ha Hxs. unfold get_data_channel. run. rewrite Ha, Hxs.
  destruct start_time as [t0|]; [|done]. run.
  destruct (find_start _ _ _ _ _) as [[start|]| |]; try done.
  destruct duration as [d|]; [|done]. run.
  by destruct (find_end _ _ _ _ _).
Qed.

(** Range query on a channel that holds at least one sample. *)
Lemma get_data_window s name a xs ts t0 d :
  channels s !! name = Some a -> heap s !! a = Some xs -> xs <> [] ->
  times (heap s) xs = Some ts -> sorted_times ts = true ->
  num_nan t0 = false -> num_nan (num_add t0 d) = false ->
  get_data_channel name (Some t0) (Some d) s =
    new_list (List.filter (in_window (heap s) t0 (num_add t0 d)) xs) s.
Proof.
  intros Ha Hxs Hne Hts Hsorted Hn0 Hn1.
  rewrite (get_data_channel_found _ _ _ _ _ _ Ha Hxs).
  pose proof (times_length _ _ _ Hts) as Hlen.
  assert (0 < length ts) as Hpos.
  { rewrite Hlen. destruct xs; [done|simpl; lia]. }
  destruct (find_start_spec (heap s) xs ts t0 Hts (S (length xs)) 0)
    as (r & -> & Hr); [lia..|].
  destruct r as [k|].
  - destruct Hr as (Hk & (tk & Htk & Hgk) & Hbefore).
    destruct (find_end_spec (heap s) xs ts (num_add t0 d) Hts
                (S (length xs)) k) as (e & -> & He & Hin & Hout); [lia..|].
    f_equal. symmetry. apply filter_slice. intros i v Hv.
    destruct (times_lookup_l _ _ _ _ _ Hts Hv) as (t & Ht & Hst).
    unfold in_window. rewrite Hst, andb_true_iff, negb_true_iff.
    pose proof (sorted_times_nan _ _ _ Hsorted Ht) as Hnt.
    pose proof (sorted_times_nan _ _ _ Hsorted Htk) as Hntk.
    split.
    + intros [Hge Hlt]. split.
      * destruct (decide (k <= i)); [done|].
        rewrite (Hbefore i t) in Hge; [done|lia|done].
      * destruct (decide (i < e)); [done|].
        destruct (lookup_lt_is_Some_2 ts e) as [te Hte].
        { apply lookup_lt_Some in Ht. lia. }
        pose proof (sorted_times_nan _ _ _ Hsorted Hte) as Hnte.
        assert (num_gt (num_add t0 d) t = false) as Hc; [|congruence].
        destruct (decide (i = e)) as [->|]; [apply Hout; done|].
        apply (le_le_trans _ te t); [done..|by apply Hout|].
        apply (sorted_times_le ts e i); [done|lia|done..].
    + intros [Hki Hie]. split; [|by apply (Hin i)].
      destruct (decide (i = k)) as [->|]; [congruence|].
      apply (le_le_trans _ tk t); [done..|].
      apply (sorted_times_le ts k i); [done|lia|done..].
  - f_equal. symmetry. rewrite (filter_slice _ _ 0 0); [done|].
    intros i v Hv. destruct (times_lookup_l _ _ _ _ _ Hts Hv) as (t & Ht & Hst).
    unfold in_window. rewrite Hst, (Hr i t); [|lia|done]. simpl. split; [done|lia].
Qed.


Lemma get_data_inl s name start_time duration :
  get_data (inl name) start_time duration s =
    match get_data_channel name start_time duration s with
    | (Ret r, s') => (Ret (inl r), s')
    | (Raise e, s') => (Raise e, s')
    | (Undefined, s') => (Undefined, s')
    end.
Proof. reflexivity. Qed.

(** C7. On an existing channel whose samples are sorted by timestamp, a
    query whose start time is strictly greater than the timestamp of the
    last sample raises nothing: it returns a new list, and that list is
    empty.  This holds with or without a duration. *)
Theorem get_data_beyond_last s name a xs ts t_last t0 duration :
  channels s !! name = Some a -> heap s !! a = Some xs ->
  times (heap s) xs = Some ts -> sorted_times ts = true ->
  last ts = Some t_last ->
  num_nan t0 = false -> num_gt t0 t_last = true ->
  exists s',
    get_data (inl name) (Some t0) duration s = (Ret (inl (length (heap s))), s') /\
    heap s' = heap s ++ [[]] /\ channels s' = channels s.
Proof.
  intros Ha Hxs Hts Hsorted Hlast Hn0 Hgt.
  rewrite get_data_inl, (get_data_channel_found _ _ _ _ _ _ Ha Hxs).
  pose proof (times_length _ _ _ Hts) as Hlen.
  rewrite last_lookup in Hlast. apply lookup_lt_Some in Hlast as Hpos.
  destruct (find_start_spec (heap s) xs ts t0 Hts (S (length xs)) 0)
    as (r & -> & Hr); [lia..|].
  destruct r as [k|]; [|by eexists].
  exfalso. destruct Hr as (Hk & (tk & Htk & Hgk) & _).
  assert (num_gt t0 tk = true) as Hc; [|congruence].
  destruct (decide (k = pred (length ts))) as [->|Hne]; [congruence|].
  apply (gt_ge_trans _ t_last tk); [done|by eapply sorted_times_nan..|done|].
  apply (sorted_times_le ts k (pred (length ts))); [done|lia|done..].
Qed.

(** C10. On a channel that exists and holds no sample, a query with a start
    time raises [IndexError], whatever the start time and the duration: the
    first loop reads [self.channels[channel][0][0]] before any test of the
    length.  The state is as it was. *)
Theorem get_data_empty_channel_raises s name a t0 duration :
  channels s !! name = Some a -> heap s !! a = Some [] ->
  get_data (inl name) (Some t0) duration s = (Raise IndexError, s).
Proof.
  intros Ha Hxs.
  by rewrite get_data_inl, (get_data_channel_found _ _ _ _ _ _ Ha Hxs).
Qed.
End Query.

Section Store.
Context {T : Type} `{Number T}.
Implicit Types (h : list (list (value T))) (xs : list (value T))
  (s : state T).

Lemma add_data_found s name a xs data :
  channels s !! name = Some a -> heap s !! a = Some xs ->
  add_data name data s =
    (Ret tt,
     State (<[a := xs ++ [data]]> (heap s)) (channels s) (_eeg_thread s)
           (_eeg_thread_active s) (_eeg_channel_names s) (started s)
           (stdout s)).
Proof.
  intros Ha Hxs. unfold add_data, list_append. run. by rewrite Ha, Hxs.
Qed.

(** Appending a sequence extends the channel's list by it, in order, and
    touches nothing else. *)
Lemma add_data_sequence ds : forall s name a xs,
  channels s !! name = Some a -> heap s !! a = Some xs ->
  for_each ds (add_data name) s =
    (Ret tt,
     State (<[a := xs ++ ds]> (heap s)) (channels s) (_eeg_thread s)
           (_eeg_thread_active s) (_eeg_channel_names s) (started s)
           (stdout s)).
Proof.
  induction ds as [|d ds IH]; intros s name a xs Ha Hxs.
  - simpl. run. rewrite app_nil_r, list_insert_id by done. by destruct s.
  - simpl. run. rewrite (add_data_found _ _ _ _ _ Ha Hxs).
    rewrite (IH _ name a (xs ++ [d])); simpl; [|done|].
    + by rewrite list_insert_insert_eq, <- app_assoc.
    + apply list_lookup_insert_eq. by eapply lookup_lt_Some.
Qed.

(** C2, as the code has it. Samples appended to an existing channel are what
    a query without start time returns, in the order of the appends (after
    whatever the channel held before; nothing is asked of the timestamps, so
    the non-decreasing ones are covered).  The list returned is a new object,
    at an address that was not in use, but the copy is one level deep: its
    entries are the store's own samples.  So whatever the caller puts in the
    returned list itself, every list that existed before the query is as it
    was; and what the caller writes into a sample it reached through the
    returned list is written into the store's sample. *)
Theorem append_query_round_trip s name a xs ds :
  channels s !! name = Some a -> heap s !! a = Some xs ->
  exists s1 s2 r,
    for_each ds (add_data name) s = (Ret tt, s1) /\
    get_data (inl name) None None s1 = (Ret (inl r), s2) /\
    heap s2 !! r = Some (xs ++ ds) /\
    heap s1 !! r = None /\
    (forall ys,
       take (length (heap s1)) (heap (mutate_list r ys s2)) = heap s1 /\
       channels (mutate_list r ys s2) = channels s1 /\
       channel_data (mutate_list r ys s2) name = Some (xs ++ ds)) /\
    (forall b ys,
       VList b ∈ xs ++ ds -> b < length (heap s1) ->
       take (length (heap s1)) (heap (mutate_list b ys s2)) =
         <[b := ys]> (heap s1) /\
       heap (mutate_list b ys s2) !! b = Some ys /\
       channels (mutate_list b ys s2) = channels s1).
Proof.
  intros Ha Hxs.
  pose proof (lookup_lt_Some _ _ _ Hxs) as Hlt.
  assert (<[a:=xs ++ ds]> (heap s) !! a = Some (xs ++ ds)) as Hnew
    by by apply list_lookup_insert_eq.
  set (s1 := State (<[a:=xs ++ ds]> (heap s)) (channels s) (_eeg_thread s)
               (_eeg_thread_active s) (_eeg_channel_names s) (started s)
               (stdout s)).
  exists s1. eexists _, _.
  split; [by apply add_data_sequence|].
  split.
  { rewrite get_data_inl.
    by rewrite (get_data_channel_found s1 name a (xs ++ ds) None None Ha Hnew). }
  simpl. split; [by rewrite lookup_app_r, Nat.sub_diag|].
  split; [by apply lookup_ge_None|]. split.
  - intros ys. split; [|split; [done|]].
    + rewrite <- (Nat.add_0_r (length (<[a:=xs ++ ds]> (heap s)))) at 2.
      rewrite insert_app_r. simpl. by rewrite take_app_length.
    + unfold channel_data, mutate_list. simpl. rewrite Ha. simpl.
      rewrite list_lookup_insert_ne, lookup_app_l; [done|..];
        rewrite length_insert; lia.
  - intros b ys _ Hb. split; [|split; [|done]].
    + rewrite insert_app_l by done.
      rewrite take_app_length'; [done|]. by rewrite !length_insert.
    + apply list_lookup_insert_eq. rewrite length_app.
      unfold s1 in Hb. simpl in Hb. lia.
Qed.

(** C3, as the code has it. [add_data] on a name the store does not hold
    raises nothing: it prints a line and returns.  No channel is created
    and no list changes. *)
Theorem add_data_missing_channel s name data :
  channels s !! name = None ->
  exists s',
    add_data name data s = (Ret tt, s') /\
    channels s' = channels s /\ heap s' = heap s /\
    stdout s' =
      stdout s ++ ["A channel with name " +:+ name +:+ " does not exist"].
Proof.
  intros Hn. unfold add_data. run. rewrite Hn. by eexists.
Qed.

(** C4, as the code has it. [lsl_start] tests nothing: in every state, and
    so also when a thread is already recording, it returns normally, starts
    one more thread and puts the new thread's handle in place of the old. *)
Theorem lsl_start_unguarded s :
  exists s',
    lsl_start s = (Ret tt, s') /\
    started s' = S (started s) /\
    _eeg_thread s' = Some (started s) /\
    _eeg_thread_active s' = true /\
    channels s' = channels s /\ heap s' = heap s.
Proof. by eexists. Qed.

(** C6. [get_latest_data] of one channel returns the last entry of the
    channel's list, which is the sample appended last; on a channel without
    data it raises [IndexError] (the list is indexed at [-1]), and on a name
    the store does not hold it raises [KeyError] (the dictionary is indexed
    at the name).  In each case the state is as it was. *)
Theorem get_latest_data_cases s name :
  (forall a xs x,
      channels s !! name = Some a -> heap s !! a = Some (xs ++ [x]) ->
      get_latest_data (inl name) s = (Ret (inl x), s)) /\
  (forall a xs data,
      channels s !! name = Some a -> heap s !! a = Some xs ->
      exists s1,
        add_data name data s = (Ret tt, s1) /\
        get_latest_data (inl name) s1 = (Ret (inl data), s1)) /\
  (forall a,
      channels s !! name = Some a -> heap s !! a = Some [] ->
      get_latest_data (inl name) s = (Raise IndexError, s)) /\
  (channels s !! name = None ->
   get_latest_data (inl name) s = (Raise (KeyError name), s)).
Proof.
  assert (forall s' a xs x,
    channels s' !! name = Some a -> heap s' !! a = Some (xs ++ [x]) ->
    get_latest_data (inl name) s' = (Ret (inl x), s')) as Hlast.
  { intros s' a xs x Ha Hxs. unfold get_latest_data, get_latest_data_channel.
    run. by rewrite Ha, Hxs, last_snoc. }
  split; [by apply Hlast|]. split; [|split].
  - intros a xs data Ha Hxs. eexists. split; [by apply add_data_found|].
    apply (Hlast _ a xs); simpl; [done|].
    apply list_lookup_insert_eq. by eapply lookup_lt_Some.
  - intros a Ha Hxs. unfold get_latest_data, get_latest_data_channel.
    run. by rewrite Ha, Hxs.
  - intros Hn. unfold get_latest_data, get_latest_data_channel.
    run. by rewrite Hn.
Qed.
End Store.

Section Cost.
Context {T : Type} `{Number T}.
Implicit Types (h : list (list (value T))) (xs : list (value T))
  (ts : list T).

Lemma find_start_counting_S h xs t0 fuel start tests :
  find_start_counting h xs t0 (S fuel) start tests =
    match later_than h xs t0 start with
    | Ret true =>
        if S start =? length xs then (Ret None, S tests)
        else find_start_counting h xs t0 fuel (S start) (S tests)
    | Ret false => (Ret (Some start), S tests)
    | Raise e => (Raise e, S tests)
    | Undefined => (Undefined, S tests)
    end.
Proof. reflexivity. Qed.

(** Counting the tests does not change what the loop computes. *)
Lemma find_start_counting_result h xs t0 fuel : forall start tests,
  (find_start_counting h xs t0 fuel start tests).1 =
    find_start h xs t0 fuel start.
Proof.
  induction fuel as [|fuel IH]; intros start tests; [done|].
  rewrite find_start_S, find_start_counting_S.
  destruct (later_than h xs t0 start) as [[|]| |]; try done.
  unfold mbind, outcome_bind.
  destruct (S start =? length xs); [done|]. apply IH.
Qed.

Lemma find_start_counting_tests h xs ts t0 :
  times h xs = Some ts ->
  forall fuel start tests,
    start < length ts -> length ts - start <= fuel ->
    (find_start_counting h xs t0 fuel start tests).2 =
      match find_start h xs t0 fuel start with
      | Ret (Some k) => tests + S (k - start)
      | _ => tests + (length xs - start)
      end.
Proof.
  intros Hts. pose proof (times_length _ _ _ Hts) as Hlen.
  induction fuel as [|fuel IH]; intros start tests Hlt Hfuel; [lia|].
  destruct (lookup_lt_is_Some_2 ts start Hlt) as [t Ht].
  rewrite find_start_S, find_start_counting_S.
  rewrite (later_than_times _ _ _ _ _ _ Hts Ht).
  unfold mbind, outcome_bind. destruct (num_gt t0 t) eqn:Hgt.
  - destruct (Nat.eqb_spec (S start) (length xs)) as [Heq|Hne];
      [simpl; lia|].
    rewrite IH by lia.
    destruct (find_start_spec h xs ts t0 Hts fuel (S start))
      as (r & -> & Hr); [lia..|].
    destruct r as [k|]; [|lia]. destruct Hr as [Hk _]. lia.
  - simpl. lia.
Qed.

(** C9, as the code has it. The search for the start index is a scan from
    index 0 that tests one timestamp after the other: it stops at the first
    index [k] whose timestamp is not below the start time, after [k + 1]
    tests, and when every timestamp is below the start time it has tested
    all of them, as many as the channel holds. *)
Theorem find_start_linear_scan h xs ts t0 :
  times h xs = Some ts -> xs <> [] ->
  exists r tests,
    find_start_counting h xs t0 (S (length xs)) 0 0 = (Ret r, tests) /\
    find_start h xs t0 (S (length xs)) 0 = Ret r /\
    match r with
    | Some k =>
        tests = S k /\
        (exists t, ts !! k = Some t /\ num_gt t0 t = false) /\
        (forall i t, i < k -> ts !! i = Some t -> num_gt t0 t = true)
    | None =>
        tests = length xs /\
        (forall i t, ts !! i = Some t -> num_gt t0 t = true)
    end.
Proof.
  intros Hts Hne. pose proof (times_length _ _ _ Hts) as Hlen.
  assert (0 < length ts) as Hpos.
  { rewrite Hlen. destruct xs; [done|simpl; lia]. }
  pose proof (find_start_counting_result h xs t0 (S (length xs)) 0 0) as Hres.
  pose proof (find_start_counting_tests h xs ts t0 Hts (S (length xs)) 0 0)
    as Htests.
  destruct (find_start_spec h xs ts t0 Hts (S (length xs)) 0)
    as (r & Hr & Hspec); [lia..|].
  rewrite Hr in Hres, Htests. specialize (Htests ltac:(lia) ltac:(lia)).
  destruct (find_start_counting _ _ _ _ _ _) as [o tests].
  simpl in Hres, Htests. subst o. exists r, tests. split; [done|].
  split; [done|]. destruct r as [k|].
  - destruct Hspec as (_ & Hex & Hbefore). split; [lia|]. split; [done|].
    intros i t Hi. apply Hbefore. lia.
  - split; [lia|]. intros i t. apply Hspec. lia.
Qed.
End Cost.

Section Batch.
Context {T : Type} `{Number T}.
Implicit Types (h : list (list (value T))) (xs : list (value T))
  (s : state T).

Lemma closed_value_mono n m (v : value T) :
  n <= m -> closed_value n v = true -> closed_value m v = true.
Proof.
  destruct v; simpl; try done. rewrite !Nat.ltb_lt. lia.
Qed.

Lemma well_formed_heap s a xs v :
  well_formed s = true -> heap s !! a = Some xs -> v ∈ xs ->
  closed_value (length (heap s)) v = true.
Proof.
  unfold well_formed. rewrite andb_true_iff, forallb_forall.
  intros [Hh _] Hxs Hv.
  assert (In xs (heap s)) as Hin
    by (apply list_elem_of_In, list_elem_of_lookup; eauto).
  specialize (Hh xs Hin). rewrite forallb_forall in Hh.
  by apply Hh, list_elem_of_In.
Qed.

Lemma well_formed_channel s name a :
  well_formed s = true -> channels s !! name = Some a ->
  exists xs, heap s !! a = Some xs.
Proof.
  unfold well_formed. rewrite andb_true_iff, !forallb_forall.
  intros [_ Hc] Ha. apply lookup_lt_is_Some_2.
  specialize (Hc (name, a)). simpl in Hc. apply Nat.ltb_lt, Hc.
  by apply list_elem_of_In, elem_of_map_to_list.
Qed.

(** A new list made of entries of the heap keeps the state well formed. *)
Lemma well_formed_new_list s ys :
  well_formed s = true ->
  (forall v, v ∈ ys -> closed_value (length (heap s)) v = true) ->
  well_formed (new_list ys s).2 = true.
Proof.
  intros Hwf Hys. pose proof Hwf as Hwf'. unfold well_formed in *. simpl.
  rewrite andb_true_iff in *. destruct Hwf as [Hh Hc].
  rewrite !forallb_forall in *. rewrite length_app. simpl. split.
  - intros xs Hxs. rewrite forallb_forall. intros v Hv.
    apply in_app_or in Hxs as [Hxs|[<-|[]]].
    + specialize (Hh xs Hxs). rewrite forallb_forall in Hh.
      eapply closed_value_mono; [|by apply Hh]. lia.
    + eapply closed_value_mono; [|by apply Hys, list_elem_of_In]. lia.
  - intros na Hna. specialize (Hc na Hna).
    rewrite Nat.ltb_lt in *. lia.
Qed.

Lemma later_than_defined h xs t i :
  (forall v, v ∈ xs -> closed_value (length h) v = true) ->
  later_than h xs t i <> Undefined.
Proof.
  intros Hxs. unfold later_than, item.
  destruct (xs !! i) as [v|] eqn:Hv; [|done]. simpl.
  unfold mbind, outcome_bind.
  assert (v ∈ xs) as Hin by (apply list_elem_of_lookup; eauto).
  specialize (Hxs v Hin). destruct v as [| |a]; simpl in *; try done.
  apply Nat.ltb_lt, lookup_lt_is_Some_2 in Hxs as [ys ->].
  unfold item. destruct (ys !! 0) as [[| |]|]; done.
Qed.

Lemma later_than_Ret h xs t i c :
  later_than h xs t i = Ret c -> i < length xs.
Proof.
  unfold later_than, item. destruct (xs !! i) eqn:Hv; [|done].
  intros _. by eapply lookup_lt_Some.
Qed.

(** With as much fuel as the list is long, plus one, the first loop ends. *)
Lemma find_start_defined h xs t :
  (forall v, v ∈ xs -> closed_value (length h) v = true) ->
  forall fuel start,
    length xs - start < fuel ->
    match find_start h xs t fuel start with
    | Ret (Some k) => k < length xs
    | Ret None | Raise _ => True
    | Undefined => False
    end.
Proof.
  intros Hxs. induction fuel as [|fuel IH]; intros start Hfuel; [lia|].
  rewrite find_start_S.
  pose proof (later_than_defined h xs t start Hxs) as Hdef.
  destruct (later_than h xs t start) as [c| |] eqn:Hl; try done.
  apply later_than_Ret in Hl. unfold mbind, outcome_bind.
  destruct c; [|done].
  destruct (S start =? length xs); [done|]. apply IH. lia.
Qed.

Lemma find_end_defined h xs t :
  (forall v, v ∈ xs -> closed_value (length h) v = true) ->
  forall fuel e,
    length xs - e < fuel ->
    find_end h xs t fuel e <> Undefined.
Proof.
  intros Hxs. induction fuel as [|fuel IH]; intros e Hfuel; [lia|].
  rewrite find_end_S. destruct (Nat.ltb_spec e (length xs)); [|done].
  pose proof (later_than_defined h xs t e Hxs) as Hdef.
  destruct (later_than h xs t e) as [c| |] eqn:Hl; try done.
  unfold mbind, outcome_bind. destruct c; [|done]. apply IH. lia.
Qed.

(** In a well-formed state a query of one channel returns or raises; when it
    returns, the state it leaves is well formed and holds the same
    channels; when it raises, the state is as it was. *)
Lemma get_data_channel_defined s name start_time duration :
  well_formed s = true ->
  match get_data_channel name start_time duration s with
  | (Ret _, s') => well_formed s' = true /\ channels s' = channels s
  | (Raise _, s') => s' = s
  | (Undefined, _) => False
  end.
Proof.
  intros Hwf. destruct (channels s !! name) as [a|] eqn:Ha.
  2: { unfold get_data_channel. run. by rewrite Ha. }
  destruct (well_formed_channel _ _ _ Hwf Ha) as [xs Hxs].
  rewrite (get_data_channel_found _ _ _ _ _ _ Ha Hxs).
  pose proof (fun v => well_formed_heap s a xs v Hwf Hxs) as Hcl.
  assert (forall ys, ys ⊆ xs ->
    well_formed (new_list ys s).2 = true /\
    channels (new_list ys s).2 = channels s) as Hnew.
  { intros ys Hsub. split; [|done]. apply well_formed_new_list; [done|].
    intros v Hv. apply Hcl. revert Hv. apply Hsub. }
  destruct start_time as [t0|]; [|by apply Hnew].
  pose proof (find_start_defined (heap s) xs t0
                (fun v Hv => Hcl v Hv) (S (length xs)) 0 ltac:(lia)) as Hfs.
  destruct (find_start _ _ _ _ _) as [[k|]| |]; try done.
  2: { apply Hnew. apply list_subseteq_nil. }
  destruct duration as [d|].
  2: { apply Hnew. apply subseteq_drop. }
  pose proof (find_end_defined (heap s) xs (num_add t0 d)
                (fun v Hv => Hcl v Hv) (S (length xs)) k ltac:(lia)) as Hfe.
  destruct (find_end _ _ _ _ _) as [e| |]; try done.
  apply Hnew. unfold slice. etrans; [apply subseteq_drop|apply subseteq_take].
Qed.

Lemma get_data_channel_missing s name start_time duration :
  channels s !! name = None ->
  get_data_channel name start_time duration s =
    (Raise (Exception
              ("A channel with name " +:+ name +:+ " does not exist")), s).
Proof. intros Hn. unfold get_data_channel. run. by rewrite Hn. Qed.

(** The loop over the names stops at the first name whose query raises. *)
Lemma get_data_each_first_failure names :
  forall s n start_time duration acc,
    well_formed s = true -> n ∈ names -> channels s !! n = None ->
    exists pre m post e s' d,
      names = pre ++ m :: post /\
      (forall k, k ∈ pre -> is_Some (channels s !! k)) /\
      get_data_each pre start_time duration acc s = (Ret d, s') /\
      get_data_channel m start_time duration s' = (Raise e, s') /\
      get_data_each names start_time duration acc s = (Raise e, s') /\
      channels s' = channels s /\
      (channels s !! m = None ->
       e = Exception ("A channel with name " +:+ m +:+ " does not exist")).
Proof.
  induction names as [|k names IH]; intros s n st d acc Hwf Hin Hn.
  { by apply elem_of_nil in Hin. }
  pose proof (get_data_channel_defined s k st d Hwf) as Hdef.
  destruct (get_data_channel k st d s) as [[r|e|] s1] eqn:Hq; [| |done].
  - destruct Hdef as [Hwf1 Hch1].
    destruct (channels s !! k) as [b|] eqn:Hk.
    2: { rewrite (get_data_channel_missing _ _ _ _ Hk) in Hq. discriminate. }
    assert (n <> k) as Hne by congruence.
    apply elem_of_cons in Hin as [?|Hin]; [done|].
    destruct (IH s1 n st d (<[k:=r]> acc) Hwf1 Hin)
      as (pre & m & post & e & s' & d' & -> & Hpre & Hrun & Hm & Hall & Hch & He).
    { by rewrite Hch1. }
    exists (k :: pre), m, post, e, s', d'. split; [done|]. split.
    { intros j Hj. apply elem_of_cons in Hj as [->|Hj]; [by rewrite Hk|].
      rewrite <- Hch1. by apply Hpre. }
    split; [simpl; run; by rewrite Hq|]. split; [done|].
    split; [simpl; run; by rewrite Hq|]. split; [congruence|].
    intros Hnone. apply He. by rewrite Hch1.
  - subst s1. exists [], k, names, e, s, acc. split; [done|]. split.
    { intros j Hj. by apply elem_of_nil in Hj. }
    split; [done|]. split; [done|].
    split; [simpl; run; by rewrite Hq|]. split; [done|].
    intros Hnone. rewrite (get_data_channel_missing _ _ _ _ Hnone) in Hq.
    congruence.
Qed.

(** C5, as the code has it. When one of the names of the list is not held
    by the store, [get_data] on the list returns no mapping: the call ends
    in the exception raised by the query of the first name whose query
    raises, the queries of the names before it having returned.  That name
    is the missing one or a name before it; when it is a name the store
    does not hold, the exception is that of a missing channel.  The names
    of the store are as they were. *)
Theorem get_data_list_missing_channel s names n start_time duration :
  well_formed s = true -> n ∈ names -> channels s !! n = None ->
  exists pre m post e s' d,
    names = pre ++ m :: post /\
    (forall k, k ∈ pre -> is_Some (channels s !! k)) /\
    get_data (inr pre) start_time duration s = (Ret (inr d), s') /\
    get_data (inl m) start_time duration s' = (Raise e, s') /\
    get_data (inr names) start_time duration s = (Raise e, s') /\
    channels s' = channels s /\
    (channels s !! m = None ->
     e = Exception ("A channel with name " +:+ m +:+ " does not exist")).
Proof.
  intros Hwf Hin Hn.
  destruct (get_data_each_first_failure names s n start_time duration ∅
              Hwf Hin Hn)
    as (pre & m & post & e & s' & d & Hnames & Hpre & Hrun & Hm & Hall & Hch & He).
  exists pre, m, post, e, s', d. split; [done|]. split; [done|].
  split; [unfold get_data; run; by rewrite Hrun|].
  split; [by rewrite get_data_inl, Hm|].
  split; [unfold get_data; run; by rewrite Hall|]. done.
Qed.
End Batch.

Section Ingestion.
Context {T : Type} `{Number T}.
Implicit Types (xs : list (value T)) (s σ : state T) (p : pull T)
  (ns : list string) (locs : list nat).

(** The sample the loop builds from a pull and one of its values. *)
Local Abbreviation sample_of p x :=
  [VNum (num_add (timestamp p) (time_correction p)); VNum x].

Lemma record_sample_step σ p ns i name a old x :
  _eeg_channel_names σ = Some ns -> ns !! i = Some name ->
  samples p !! i = Some x ->
  channels σ !! name = Some a -> heap σ !! a = Some old ->
  record_sample p i σ =
    (Ret tt,
     State (<[a := old ++ [VList (length (heap σ))]]>
              (heap σ ++ [sample_of p x]))
           (channels σ) (_eeg_thread σ) (_eeg_thread_active σ)
           (_eeg_channel_names σ) (started σ) (stdout σ)).
Proof.
  intros Hns Hname Hx Ha Hold. unfold record_sample, item. run.
  rewrite Hns, Hname, Hx. unfold add_data, list_append. run.
  rewrite Ha. simpl. by rewrite (lookup_app_l_Some _ _ _ _ Hold).
Qed.

Section OnePull.
Variables (s : state T) (p : pull T) (ns : list string) (locs : list nat).
Hypothesis Hnames : _eeg_channel_names s = Some ns.
Hypothesis Hlocs : Forall2 (fun n a => channels s !! n = Some a) ns locs.
Hypothesis Hdistinct : NoDup locs.
Hypothesis Hbound : Forall (fun a => a < length (heap s)) locs.
Hypothesis Hlen : length (samples p) <= length ns.

(** The state after the first [j] turns of the [for] loop. *)
Definition after_turns (j : nat) (σ : state T) : Prop :=
  channels σ = channels s /\
  _eeg_channel_names σ = _eeg_channel_names s /\
  _eeg_thread_active σ = _eeg_thread_active s /\
  length (heap σ) = length (heap s) + j /\
  (forall i x, i < j -> samples p !! i = Some x ->
     heap σ !! (length (heap s) + i) = Some (sample_of p x)) /\
  (forall i a, locs !! i = Some a ->
     heap σ !! a =
       if decide (i < j)
       then (fun old => old ++ [VList (length (heap s) + i)]) <$> heap s !! a
       else heap s !! a) /\
  (forall b, b < length (heap s) -> b ∉ locs -> heap σ !! b = heap s !! b).

Lemma after_turns_0 : after_turns 0 s.
Proof.
  repeat split; try done; try lia.
Qed.

Lemma after_turns_S j σ :
  after_turns j σ -> j < length (samples p) ->
  exists σ', record_sample p j σ = (Ret tt, σ') /\ after_turns (S j) σ'.
Proof.
  intros (Hch & Hn & Hact & Hl & Hnew & Hchan & Hrest) Hj.
  destruct (lookup_lt_is_Some_2 (samples p) j Hj) as [x Hx].
  destruct (lookup_lt_is_Some_2 ns j) as [name Hname]; [lia|].
  destruct (Forall2_lookup_l _ _ _ _ _ Hlocs Hname) as (a & Ha & Hca).
  pose proof (Forall_lookup_1 _ _ _ _ Hbound Ha) as Hlt. simpl in Hlt.
  destruct (lookup_lt_is_Some_2 (heap s) a Hlt) as [old Hold].
  assert (heap σ !! a = Some old) as Hold'.
  { rewrite (Hchan j a Ha). by case_decide; [lia|]. }
  assert (forall i b, locs !! i = Some b -> b < length (heap s)) as Hlt'.
  { intros i b Hb. apply (Forall_lookup_1 _ _ _ _ Hbound Hb). }
  eexists. split.
  { eapply record_sample_step; [by rewrite Hn| done..|by rewrite Hch|done]. }
  rewrite Hl. repeat split; simpl; try done.
  - rewrite length_insert, length_app. simpl. lia.
  - intros i y Hi Hy. rewrite list_lookup_insert_ne by lia.
    destruct (decide (i = j)) as [->|Hne].
    + rewrite lookup_app_r by lia.
      replace (length (heap s) + j - length (heap σ)) with 0 by lia.
      simpl. congruence.
    + rewrite lookup_app_l by lia. apply Hnew; [lia|done].
  - intros i b Hb. destruct (decide (b = a)) as [->|Hne].
    + assert (i = j) as -> by (eapply NoDup_lookup; eauto).
      rewrite list_lookup_insert_eq by (rewrite length_app; simpl; lia).
      rewrite Hold. by case_decide; [|lia].
    + rewrite list_lookup_insert_ne by done.
      rewrite lookup_app_l by (specialize (Hlt' i b Hb); lia).
      rewrite (Hchan i b Hb).
      destruct (decide (i = j)) as [->|Hij]; [congruence|].
      repeat case_decide; try done; lia.
  - intros b Hb Hnotin. rewrite list_lookup_insert_ne.
    + rewrite lookup_app_l by lia. by apply Hrest.
    + intros <-. apply Hnotin, list_elem_of_lookup. eauto.
Qed.

Lemma after_turns_loop k : forall j σ,
  after_turns j σ -> j + k <= length (samples p) ->
  exists σ',
    for_each (seq j k) (record_sample p) σ = (Ret tt, σ') /\
    after_turns (j + k) σ'.
Proof.
  induction k as [|k IH]; intros j σ Hinv Hjk.
  - exists σ. split; [done|]. by rewrite Nat.add_0_r.
  - destruct (after_turns_S j σ Hinv) as (σ1 & Hstep & Hinv1); [lia|].
    destruct (IH (S j) σ1 Hinv1) as (σ' & Hloop & Hinv'); [lia|].
    exists σ'. split.
    + simpl. run. by rewrite Hstep.
    + by replace (j + S k) with (S j + k) by lia.
Qed.

Lemma record_pull_spec :
  exists s',
    record_pull p s = (Ret tt, s') /\
    after_turns (length (samples p)) s'.
Proof.
  apply (after_turns_loop (length (samples p)) 0 s after_turns_0). lia.
Qed.
End OnePull.

Lemma reported_cons i p (ps : list (pull T)) :
  reported i (p :: ps) =
    match samples p !! i with
    | Some x => (num_add (timestamp p) (time_correction p), x) :: reported i ps
    | None => reported i ps
    end.
Proof. unfold reported. simpl. by destruct (samples p !! i). Qed.

(** The loop over a sequence of pulls: what each channel's list and the
    rest of the heap are afterwards. *)
Lemma record_loop_heap ns locs ps : forall s,
  _eeg_thread_active s = true ->
  _eeg_channel_names s = Some ns ->
  Forall2 (fun n a => channels s !! n = Some a) ns locs ->
  NoDup locs ->
  Forall (fun a => a < length (heap s)) locs ->
  Forall (fun p => length (samples p) <= length ns) ps ->
  exists s',
    record_loop ps s = (Ret tt, s') /\
    channels s' = channels s /\
    length (heap s) <= length (heap s') /\
    (forall b ys, heap s !! b = Some ys -> b ∉ locs -> heap s' !! b = Some ys) /\
    (forall i a, locs !! i = Some a ->
       exists old bs,
         heap s !! a = Some old /\
         heap s' !! a = Some (old ++ (VList <$> bs)) /\
         Forall2 (fun b tx => heap s' !! b = Some [VNum tx.1; VNum tx.2])
                 bs (reported i ps) /\
         Forall (fun b => length (heap s) <= b) bs).
Proof.
  induction ps as [|p ps IH]; intros s Hact Hns Hlocs Hnd Hbound Hlens.
  { exists s. repeat split; try done.
    intros i a Ha. pose proof (Forall_lookup_1 _ _ _ _ Hbound Ha) as Hlt.
    destruct (lookup_lt_is_Some_2 (heap s) a Hlt) as [old Hold].
    exists old, []. simpl. rewrite app_nil_r. repeat split; done. }
  apply Forall_cons in Hlens as [Hlen Hlens].
  destruct (record_pull_spec s p ns locs Hns Hlocs Hnd Hbound Hlen)
    as (s1 & Hpull & Hch & Hn & Hact1 & Hl & Hnew & Hchan & Hrest).
  destruct (IH s1) as (s' & Hloop & Hch' & Hl' & Hkeep & Hchan');
    [congruence|congruence|by rewrite Hch|done| |done|].
  { eapply Forall_impl; [exact Hbound|]. simpl. intros; lia. }
  assert (forall b, length (heap s) <= b -> b ∉ locs) as Hfresh.
  { intros b Hb Hin. rewrite Forall_forall in Hbound.
    specialize (Hbound b Hin). simpl in Hbound. lia. }
  exists s'. split; [|split; [congruence|split; [lia|split]]].
  - simpl. run. by rewrite Hact, Hpull.
  - intros b ys Hb Hnotin. apply Hkeep; [|done].
    rewrite Hrest; [done| |done]. by eapply lookup_lt_Some.
  - intros i a Ha.
    destruct (Hchan' i a Ha) as (old1 & bs & Hold1 & Hnew1 & Hbs & Hge).
    pose proof (Forall_lookup_1 _ _ _ _ Hbound Ha) as Hlt.
    destruct (lookup_lt_is_Some_2 (heap s) a Hlt) as [old Hold].
    rewrite (Hchan i a Ha), Hold in Hold1. rewrite reported_cons.
    assert (Forall (fun b => length (heap s) <= b) bs) as Hge'.
    { eapply Forall_impl; [exact Hge|]. simpl. intros; lia. }
    case_decide as Hi.
    + destruct (lookup_lt_is_Some_2 (samples p) i Hi) as [x Hx].
      rewrite Hx. simpl in Hold1. injection Hold1 as <-.
      exists old, ((length (heap s) + i) :: bs).
      split; [done|]. split; [by rewrite Hnew1, <- app_assoc|]. split.
      * constructor; [|done]. simpl. apply Hkeep; [by apply Hnew|].
        apply Hfresh. lia.
      * constructor; [lia|done].
    + rewrite (lookup_ge_None_2 (samples p) i) by lia.
      injection Hold1 as <-. by exists old, bs.
Qed.

(** C8. While the thread is active, for every sequence of pulls the inlet
    delivers, each with no more values than the stream has channel names,
    and every named channel held by the store under a list of its own: the
    loop returns, and to the list of the channel of index [i] it has added,
    in the order of the pulls, one sample for each pull that has a value at
    [i], the list [[timestamp + time_correction, value]]. *)
Theorem record_loop_appends s ns locs ps :
  _eeg_thread_active s = true ->
  _eeg_channel_names s = Some ns ->
  Forall2 (fun n a => channels s !! n = Some a) ns locs ->
  NoDup locs ->
  Forall (fun a => a < length (heap s)) locs ->
  Forall (fun p => length (samples p) <= length ns) ps ->
  exists s',
    record_loop ps s = (Ret tt, s') /\
    channels s' = channels s /\
    forall i name, ns !! i = Some name ->
      exists old bs,
        channel_data s name = Some old /\
        channel_data s' name = Some (old ++ (VList <$> bs)) /\
        Forall2 (fun b tx => heap s' !! b = Some [VNum tx.1; VNum tx.2])
                bs (reported i ps).
Proof.
  intros Hact Hns Hlocs Hnd Hbound Hlens.
  destruct (record_loop_heap ns locs ps s Hact Hns Hlocs Hnd Hbound Hlens)
    as (s' & Hloop & Hch & _ & _ & Hchan).
  exists s'. split; [done|]. split; [done|]. intros i name Hname.
  destruct (Forall2_lookup_l _ _ _ _ _ Hlocs Hname) as (a & Ha & Hca).
  destruct (Hchan i a Ha) as (old & bs & Hold & Hnew & Hbs & _).
  exists old, bs. unfold channel_data. rewrite Hch, Hca. simpl. done.
Qed.
End Ingestion.

Section Keeping.
Context {T : Type} `{Number T}.
Implicit Types (xs : list (value T)) (s : state T).

(** What every turn of a [for] loop keeps, the loop keeps, also when a turn
    raises. *)
Lemma for_each_keeps {A} (P : state T -> Prop) (body : A -> M T unit) items :
  (forall x s o s', P s -> body x s = (o, s') -> P s') ->
  forall s o s', P s -> for_each items body s = (o, s') -> P s'.
Proof.
  intros Hbody. induction items as [|x items IH]; intros s o s' HP Hrun.
  { simpl in Hrun. injection Hrun as _ <-. done. }
  simpl in Hrun. revert Hrun. run.
  destruct (body x s) as [[[]|e|] s1] eqn:Hb; intros Hrun.
  - eapply IH; [|exact Hrun]. by eapply Hbody.
  - injection Hrun as _ <-. by eapply Hbody.
  - injection Hrun as _ <-. by eapply Hbody.
Qed.

Lemma add_data_state s name v :
  (exists a ys, channels s !! name = Some a /\ heap s !! a = Some ys /\
     add_data name v s =
       (Ret tt,
        State (<[a := ys ++ [v]]> (heap s)) (channels s) (_eeg_thread s)
              (_eeg_thread_active s) (_eeg_channel_names s) (started s)
              (stdout s))) \/
  (channels s !! name = None /\
   add_data name v s = (Ret tt, with_output s [missing_line name])) \/
  (exists a, channels s !! name = Some a /\ heap s !! a = None /\
     add_data name v s = (Undefined, s)).
Proof.
  unfold add_data, list_append. run.
  destruct (channels s !! name) as [a|] eqn:Ha; [|right; left; done].
  destruct (heap s !! a) as [ys|] eqn:Hys.
  - left. by exists a, ys.
  - right; right. by exists a.
Qed.

(** The steps of [record_sample], one by one. *)
Lemma record_sample_state s p i :
  (exists e, record_sample p i s = (Raise e, s)) \/
  (exists x,
     samples p !! i = Some x /\
     exists name,
       record_sample p i s =
         add_data name (VList (length (heap s)))
           (with_new_lists s
              [[VNum (num_add (timestamp p) (time_correction p)); VNum x]])).
Proof.
  unfold record_sample, item. run.
  destruct (_eeg_channel_names s) as [ns|] eqn:Hns; [|left; by eexists].
  destruct (ns !! i) as [name|]; [|left; by eexists]. run.
  destruct (samples p !! i) as [x|]; [|left; by eexists]. run.
  right. exists x. split; [done|]. exists name.
  unfold with_new_lists. by rewrite Hns.
Qed.

(** The loop of the thread leaves the names of the stream, the flag and the
    mapping of names to channels as they were, whether it ends or raises. *)
Lemma record_loop_keeps inlet : forall s o s',
  record_loop inlet s = (o, s') ->
  _eeg_channel_names s' = _eeg_channel_names s /\
  _eeg_thread_active s' = _eeg_thread_active s /\
  channels s' = channels s.
Proof.
  assert (forall p i s o s', record_sample p i s = (o, s') ->
            _eeg_channel_names s' = _eeg_channel_names s /\
            _eeg_thread_active s' = _eeg_thread_active s /\
            channels s' = channels s) as Hstep.
  { intros p i s o s' Hrun.
    destruct (record_sample_state s p i) as [[e He]|(x & _ & name & Hs)].
    { rewrite He in Hrun. by injection Hrun as _ <-. }
    rewrite Hs in Hrun.
    destruct (add_data_state
                (with_new_lists s
                   [[VNum (num_add (timestamp p) (time_correction p)); VNum x]])
                name (VList (length (heap s))))
      as [(a & ys & _ & _ & Ha)|[[_ Ha]|(a & _ & _ & Ha)]];
      rewrite Ha in Hrun; by injection Hrun as _ <-. }
  induction inlet as [|p inlet IH]; intros s o s' Hrun.
  { simpl in Hrun. by injection Hrun as _ <-. }
  simpl in Hrun. revert Hrun. run.
  destruct (_eeg_thread_active s) eqn:Hact.
  2: { intros Hrun. by injection Hrun as _ <-. }
  destruct (record_pull p s) as [o1 s1] eqn:Hpull.
  assert (_eeg_channel_names s1 = _eeg_channel_names s /\
          _eeg_thread_active s1 = _eeg_thread_active s /\
          channels s1 = channels s) as (Hn1 & Ha1 & Hc1).
  { unfold record_pull in Hpull.
    eapply (for_each_keeps
              (fun σ => _eeg_channel_names σ = _eeg_channel_names s /\
                        _eeg_thread_active σ = _eeg_thread_active s /\
                        channels σ = channels s)
              (record_sample p)); [|split; [|split]; reflexivity|exact Hpull].
    intros i σ o' σ' (Hn & Ha & Hc) Hb.
    destruct (Hstep p i σ o' σ' Hb) as (Hn' & Ha' & Hc').
    repeat split; congruence. }
  destruct o1 as [[]|e|]; intros Hrun.
  - destruct (IH s1 o s' Hrun) as (Hn' & Ha' & Hc').
    repeat split; congruence.
  - injection Hrun as _ <-. repeat split; congruence.
  - injection Hrun as _ <-. repeat split; congruence.
Qed.

(** Lists that only grow at their end keep the timestamps of the samples
    that refer to them. *)
Definition grown (h h' : list (list (value T))) : Prop :=
  forall b ys, h !! b = Some ys -> exists zs, h' !! b = Some (ys ++ zs).

Lemma grown_sample_time h h' v t :
  grown h h' -> sample_time h v = Some t -> sample_time h' v = Some t.
Proof.
  intros Hg. destruct v as [| |a]; simpl; try done.
  destruct (h !! a) as [ys|] eqn:Hys; [|done].
  destruct (Hg a ys Hys) as [zs ->].
  destruct ys as [|[| x |] ys]; simpl; done.
Qed.

Lemma grown_times h h' xs ts :
  grown h h' -> times h xs = Some ts -> times h' xs = Some ts.
Proof.
  intros Hg. unfold times. rewrite !mapM_Some. intros HF.
  eapply Forall2_impl; [exact HF|]. intros v t. by apply grown_sample_time.
Qed.

Lemma grown_app h new : grown h (h ++ new).
Proof.
  intros b ys Hys. exists []. rewrite app_nil_r. by apply lookup_app_l_Some.
Qed.
End Keeping.

Section Prelude.
Context {T : Type} `{Number T}.
Implicit Types (s : state T) (ns : list string).

Lemma well_formed_intro s :
  (forall xs v, xs ∈ heap s -> v ∈ xs ->
     closed_value (length (heap s)) v = true) ->
  (forall n a, channels s !! n = Some a -> a < length (heap s)) ->
  well_formed s = true.
Proof.
  intros Hh Hc. unfold well_formed. rewrite andb_true_iff, !forallb_forall.
  split.
  - intros xs Hxs. rewrite forallb_forall. intros v Hv.
    apply (Hh xs); by apply list_elem_of_In.
  - intros [n a] Hna. simpl. apply Nat.ltb_lt, (Hc n).
    by apply elem_of_map_to_list, list_elem_of_In.
Qed.

Lemma well_formed_bound s n a :
  well_formed s = true -> channels s !! n = Some a -> a < length (heap s).
Proof.
  intros Hwf Ha. destruct (well_formed_channel _ _ _ Hwf Ha) as [xs Hxs].
  by eapply lookup_lt_Some.
Qed.

Lemma in_list_channels s name :
  existsb (String.eqb name) (map_to_list (channels s)).*1 = true <->
  is_Some (channels s !! name).
Proof.
  rewrite existsb_exists. split.
  - intros (n & Hin & Heq). apply String.eqb_eq in Heq as <-.
    apply list_elem_of_In, list_elem_of_fmap in Hin as ([n a] & -> & Hin).
    apply elem_of_map_to_list in Hin. eauto.
  - intros [a Ha]. exists name. split; [|apply String.eqb_refl].
    apply list_elem_of_In, list_elem_of_fmap. exists (name, a).
    split; [done|]. by apply elem_of_map_to_list.
Qed.

(** A new stream is well formed, and so is every stream the thread's first
    loop is run on after it. *)
Lemma init_well_formed :
  well_formed (init (T := T)) = true /\ separate_channels (init (T := T)).
Proof.
  split; [done|]. intros n1 n2 a Hn1. unfold init in Hn1. simpl in Hn1.
  by rewrite lookup_empty in Hn1.
Qed.

Lemma create_channel_spec s name :
  well_formed s = true -> separate_channels s ->
  exists s',
    create_channel name s = (Ret tt, s') /\
    well_formed s' = true /\ separate_channels s' /\
    is_Some (channels s' !! name) /\
    _eeg_channel_names s' = _eeg_channel_names s /\
    _eeg_thread_active s' = _eeg_thread_active s /\
    (forall n a, channels s !! n = Some a -> channels s' !! n = Some a) /\
    (forall a xs, heap s !! a = Some xs -> heap s' !! a = Some xs) /\
    (forall n a, channels s !! n = None -> channels s' !! n = Some a ->
       heap s' !! a = Some []).
Proof.
  intros Hwf Hsep. unfold create_channel, list_channels. run.
  destruct (existsb _ _) eqn:Hex.
  - apply in_list_channels in Hex. exists s. repeat split; try done.
    intros n a Hn Ha. congruence.
  - assert (channels s !! name = None) as Hnone.
    { apply eq_None_not_Some. intros Hsome.
      apply in_list_channels in Hsome. congruence. }
    unfold add_channel. run. rewrite Hnone. run. eexists. split; [done|].
    simpl. split; [|split; [|split; [|split; [|split; [|split; [|split]]]]]];
      try done.
    + apply well_formed_intro; simpl.
      * intros xs v Hxs Hv. rewrite length_app. simpl.
        apply elem_of_app in Hxs as [Hxs|Hxs].
        -- apply list_elem_of_lookup in Hxs as [a Ha].
           eapply closed_value_mono; [|by eapply well_formed_heap]. lia.
        -- apply list_elem_of_singleton in Hxs as ->. by apply elem_of_nil in Hv.
      * intros n a. rewrite length_app. simpl.
        destruct (decide (n = name)) as [->|Hne].
        -- rewrite lookup_insert_eq. intros [= <-]. lia.
        -- rewrite lookup_insert_ne by done. intros Ha.
           pose proof (well_formed_bound _ _ _ Hwf Ha). lia.
    + unfold separate_channels. simpl. intros n1 n2 a.
      destruct (decide (n1 = name)) as [->|Hne1],
               (decide (n2 = name)) as [->|Hne2]; try done;
        rewrite ?lookup_insert_eq, ?lookup_insert_ne by done.
      * intros [= <-] Ha. pose proof (well_formed_bound _ _ _ Hwf Ha). lia.
      * intros Ha [= <-]. pose proof (well_formed_bound _ _ _ Hwf Ha). lia.
      * apply Hsep.
    + by rewrite lookup_insert_eq.
    + intros n a Ha. rewrite lookup_insert_ne; [done|congruence].
    + intros a xs Ha. by apply lookup_app_l_Some.
    + intros n a Hn. destruct (decide (n = name)) as [->|Hne].
      * rewrite lookup_insert_eq. intros [= <-].
        by rewrite lookup_app_r, Nat.sub_diag.
      * rewrite lookup_insert_ne by done. congruence.
Qed.

Lemma create_channels_spec ns : forall s,
  well_formed s = true -> separate_channels s ->
  exists s',
    for_each ns create_channel s = (Ret tt, s') /\
    well_formed s' = true /\ separate_channels s' /\
    (forall n, n ∈ ns -> is_Some (channels s' !! n)) /\
    _eeg_channel_names s' = _eeg_channel_names s /\
    _eeg_thread_active s' = _eeg_thread_active s /\
    (forall n a, channels s !! n = Some a -> channels s' !! n = Some a) /\
    (forall a xs, heap s !! a = Some xs -> heap s' !! a = Some xs) /\
    (forall n a, channels s !! n = None -> channels s' !! n = Some a ->
       heap s' !! a = Some []).
Proof.
  induction ns as [|name ns IH]; intros s Hwf Hsep.
  { exists s. repeat split; try done.
    - intros n Hn. by apply elem_of_nil in Hn.
    - intros n a Hn Ha. congruence. }
  destruct (create_channel_spec s name Hwf Hsep)
    as (s1 & Hrun1 & Hwf1 & Hsep1 & Hin1 & Hn1 & Hact1 & Hch1 & Hh1 & He1).
  destruct (IH s1 Hwf1 Hsep1)
    as (s' & Hrun & Hwf' & Hsep' & Hin' & Hn' & Hact' & Hch' & Hh' & He').
  exists s'. split; [simpl; run; by rewrite Hrun1|].
  repeat split; try done; try congruence.
  - intros n Hn. apply elem_of_cons in Hn as [->|Hn]; [|by apply Hin'].
    destruct Hin1 as [a Ha]. exists a. by apply Hch'.
  - intros n a Ha. by apply Hch', Hch1.
  - intros a xs Ha. by apply Hh', Hh1.
  - intros n a Hn Ha. destruct (channels s1 !! n) as [a1|] eqn:Ha1.
    + pose proof (Hch' _ _ Ha1) as Ha'. assert (a1 = a) as -> by congruence.
      apply Hh'. by apply (He1 n).
    + by apply (He' n).
Qed.

Lemma record_thread_run s ns ps :
  well_formed s = true -> separate_channels s ->
  _eeg_thread_active s = true ->
  _eeg_channel_names s = Some ns -> NoDup ns ->
  Forall (fun p => length (samples p) <= length ns) ps ->
  exists s',
    _record_lsl_data_indefinitely ps s = (Ret tt, s') /\
    _eeg_channel_names s' = Some ns /\
    forall i name, ns !! i = Some name ->
      exists bs,
        channel_data s' name =
          Some (default [] (channel_data s name) ++ (VList <$> bs)) /\
        Forall2 (fun b tx => heap s' !! b = Some [VNum tx.1; VNum tx.2])
                bs (reported i ps).
Proof.
  intros Hwf Hsep Hact Hns Hnd Hlens.
  destruct (create_channels_spec ns s Hwf Hsep)
    as (s1 & Hrun1 & Hwf1 & Hsep1 & Hin1 & Hn1 & Hact1 & Hch1 & Hh1 & He1).
  assert (exists locs, Forall2 (fun n a => channels s1 !! n = Some a) ns locs)
    as [locs Hlocs].
  { clear -Hin1. induction ns as [|n ns IH]; [by exists []|].
    destruct IH as [locs Hlocs].
    { intros m Hm. apply Hin1. by right. }
    destruct (Hin1 n) as [a Ha]; [by left|]. exists (a :: locs).
    by constructor. }
  assert (NoDup locs) as Hndl.
  { apply NoDup_alt. intros i j a Hi Hj.
    destruct (Forall2_lookup_r _ _ _ _ _ Hlocs Hi) as (n1 & Hn1' & Ha1).
    destruct (Forall2_lookup_r _ _ _ _ _ Hlocs Hj) as (n2 & Hn2' & Ha2).
    pose proof (Hsep1 _ _ _ Ha1 Ha2) as <-.
    by eapply (NoDup_lookup ns). }
  assert (Forall (fun a => a < length (heap s1)) locs) as Hbound.
  { apply Forall_lookup. intros i a Hi.
    destruct (Forall2_lookup_r _ _ _ _ _ Hlocs Hi) as (n & _ & Ha).
    by eapply well_formed_bound. }
  destruct (record_loop_heap ns locs ps s1)
    as (s' & Hloop & Hch & _ & _ & Hchan); [congruence|congruence|done..|].
  exists s'. split.
  { unfold _record_lsl_data_indefinitely. run. rewrite Hns. run.
    by rewrite Hrun1. }
  split.
  { destruct (record_loop_keeps ps s1 _ s' Hloop) as (-> & _). congruence. }
  intros i name Hname.
  destruct (Forall2_lookup_l _ _ _ _ _ Hlocs Hname) as (a1 & Hi1 & Hca1).
  destruct (Hchan i a1 Hi1) as (old & bs & Hold0 & Hnew0 & Hbs & _).
  assert (channel_data s1 name = Some old) as Hold
    by (unfold channel_data; by rewrite Hca1).
  assert (channel_data s' name = Some (old ++ (VList <$> bs))) as Hnew
    by (unfold channel_data; by rewrite Hch, Hca1).
  clear Hold0 Hnew0 Hca1 Hi1.
  exists bs. split; [|done]. rewrite Hnew. do 2 f_equal.
  unfold channel_data in *.
  destruct (channels s !! name) as [a|] eqn:Ha; simpl.
  - rewrite (Hch1 _ _ Ha) in Hold. simpl in Hold.
    destruct (well_formed_channel _ _ _ Hwf Ha) as [xs Hxs].
    rewrite Hxs. rewrite (Hh1 _ _ Hxs) in Hold. by injection Hold.
  - destruct (channels s1 !! name) as [a|] eqn:Ha1; [|done]. simpl in Hold.
    pose proof (He1 _ _ Ha Ha1). congruence.
Qed.

(** The thread, from its first line: in a well-formed store whose channels
    have lists of their own, with distinct channel names advertised, the
    first loop creates the channels that are missing and the second adds, to
    the channel of index [i], one sample [[timestamp + time_correction,
    value]] for each pull that has a value at [i]. *)
Theorem record_thread_appends s ns ps :
  well_formed s = true -> separate_channels s ->
  _eeg_thread_active s = true ->
  _eeg_channel_names s = Some ns -> NoDup ns ->
  Forall (fun p => length (samples p) <= length ns) ps ->
  exists s',
    _record_lsl_data_indefinitely ps s = (Ret tt, s') /\
    forall i name, ns !! i = Some name ->
      exists bs,
        channel_data s' name =
          Some (default [] (channel_data s name) ++ (VList <$> bs)) /\
        Forall2 (fun b tx => heap s' !! b = Some [VNum tx.1; VNum tx.2])
                bs (reported i ps).
Proof.
  intros Hwf Hsep Hact Hns Hnd Hlens.
  destruct (record_thread_run s ns ps Hwf Hsep Hact Hns Hnd Hlens)
    as (s' & Hrun & _ & Hres).
  by exists s'.
Qed.
End Prelude.

(** ** Queries only read *)

Section Reading.
Context {T : Type} `{Number T}.
Implicit Types (xs : list (value T)) (s : state T).

Lemma with_new_lists_nil s : with_new_lists s [] = s.
Proof. unfold with_new_lists. rewrite app_nil_r. by destruct s. Qed.

Lemma with_new_lists_app s new more :
  with_new_lists (with_new_lists s new) more = with_new_lists s (new ++ more).
Proof. unfold with_new_lists. simpl. by rewrite app_assoc. Qed.

Lemma new_list_with_new_lists s ys :
  new_list ys s = (Ret (length (heap s)), with_new_lists s [ys]).
Proof. reflexivity. Qed.

(** A query of one channel adds one list, the one it returns, or raises and
    adds nothing. *)
Lemma get_data_channel_result s name start_time duration :
  (exists ys,
     get_data_channel name start_time duration s =
       (Ret (length (heap s)), with_new_lists s [ys])) \/
  (exists e, get_data_channel name start_time duration s = (Raise e, s)) \/
  get_data_channel name start_time duration s = (Undefined, s).
Proof.
  destruct (channels s !! name) as [a|] eqn:Ha.
  2: { right; left. unfold get_data_channel. run. rewrite Ha. by eexists. }
  destruct (heap s !! a) as [xs|] eqn:Hxs.
  2: { right; right. unfold get_data_channel. run. by rewrite Ha, Hxs. }
  rewrite (get_data_channel_found _ _ _ _ _ _ Ha Hxs).
  destruct start_time as [t0|]; [|left; by eexists].
  destruct (find_start _ _ _ _ _) as [[k|]|e|]; [|left|right; left|right; right];
    try by eexists.
  destruct duration as [d|]; [|left; by eexists].
  destruct (find_end _ _ _ _ _) as [e'|e'|]; [left|right; left|right; right];
    try by eexists.
Qed.

Lemma get_data_each_result names : forall s start_time duration acc,
  exists new, (get_data_each names start_time duration acc s).2 =
              with_new_lists s new.
Proof.
  induction names as [|n names IH]; intros s st d acc.
  { exists []. simpl. by rewrite with_new_lists_nil. }
  simpl. run.
  destruct (get_data_channel_result s n st d) as [[ys ->]|[[e ->]| ->]].
  - destruct (IH (with_new_lists s [ys]) st d (<[n:=length (heap s)]> acc))
      as [new Hnew].
    exists ([ys] ++ new). rewrite <- with_new_lists_app, <- Hnew.
    by destruct (get_data_each _ _ _ _ _) as [[| |] ?].
  - exists []. by rewrite with_new_lists_nil.
  - exists []. by rewrite with_new_lists_nil.
Qed.

(** [get_data] never changes what the store holds, whether it is given one
    name or a list, and whether it returns or raises: the state it leaves is
    the state it found with new lists added (the copies it made), so the
    channels, every list that existed, the flags and the output are as they
    were. *)
Theorem get_data_only_adds_lists (s : state T) chs start_time duration :
  exists new, (get_data chs start_time duration s).2 = with_new_lists s new.
Proof.
  destruct chs as [name|names]; unfold get_data; run.
  - destruct (get_data_channel_result s name start_time duration)
      as [[ys ->]|[[e ->]| ->]].
    + by exists [ys].
    + exists []. by rewrite with_new_lists_nil.
    + exists []. by rewrite with_new_lists_nil.
  - destruct (get_data_each_result names s start_time duration ∅) as [new Hnew].
    exists new. rewrite <- Hnew.
    by destruct (get_data_each _ _ _ _ _) as [[| |] ?].
Qed.

Lemma channel_data_with_new_lists s new name xs :
  channel_data s name = Some xs ->
  channel_data (with_new_lists s new) name = Some xs.
Proof.
  unfold channel_data. simpl. destruct (channels s !! name) as [a|]; [|done].
  simpl. apply lookup_app_l_Some.
Qed.

Lemma get_data_each_snapshot names : forall s acc,
  (forall n, n ∈ names -> is_Some (channel_data s n)) ->
  exists d new,
    get_data_each names None None acc s = (Ret d, with_new_lists s new) /\
    (forall n, n ∈ names ->
       exists r xs,
         d !! n = Some r /\ channel_data s n = Some xs /\
         (heap s ++ new) !! r = Some xs /\ length (heap s) <= r) /\
    (forall n, n ∉ names -> d !! n = acc !! n).
Proof.
  induction names as [|m names IH]; intros s acc Hall.
  { exists acc, []. rewrite with_new_lists_nil. split; [done|].
    split; [|done]. intros n Hn. by apply elem_of_nil in Hn. }
  destruct (Hall m) as [xs Hxs]; [by left|].
  assert (get_data_channel m None None s =
            (Ret (length (heap s)), with_new_lists s [xs])) as Hq.
  { unfold channel_data in Hxs.
    destruct (channels s !! m) as [a|] eqn:Ha; [|done]. simpl in Hxs.
    by rewrite (get_data_channel_found _ _ _ _ _ _ Ha Hxs). }
  destruct (IH (with_new_lists s [xs]) (<[m:=length (heap s)]> acc))
    as (d & new & Hrun & Hin & Hout).
  { intros n Hn. destruct (Hall n) as [ys Hys]; [by right|].
    exists ys. by apply channel_data_with_new_lists. }
  exists d, ([xs] ++ new). rewrite <- with_new_lists_app. split.
  { simpl. run. by rewrite Hq. }
  split.
  - intros n Hn. destruct (decide (n ∈ names)) as [Hn'|Hn'].
    + destruct (Hin n Hn') as (r & ys & Hd & Hys & Hr & Hle).
      destruct (Hall n Hn) as [zs Hzs].
      rewrite (channel_data_with_new_lists _ _ _ _ Hzs) in Hys.
      injection Hys as <-. exists r, zs. simpl in Hr, Hle.
      rewrite length_app in Hle. simpl in Hle.
      rewrite <- app_assoc in Hr. repeat split; try done. lia.
    + apply elem_of_cons in Hn as [->|?]; [|done].
      exists (length (heap s)), xs. rewrite (Hout m Hn'), lookup_insert_eq.
      repeat split; try done.
      by rewrite lookup_app_r, Nat.sub_diag.
  - intros n Hn. apply not_elem_of_cons in Hn as [Hne Hn].
    rewrite (Hout n Hn). by rewrite lookup_insert_ne.
Qed.

(** [get_data] on a list of names, without a start time, when the store
    holds every name: it returns a dictionary whose keys are the names of the
    list, each with a new list (at an address not in use before) whose
    contents are those of the channel. *)
Theorem get_data_list_snapshot (s : state T) names :
  (forall n, n ∈ names -> is_Some (channel_data s n)) ->
  exists d s',
    get_data (inr names) None None s = (Ret (inr d), s') /\
    (forall n, is_Some (d !! n) <-> n ∈ names) /\
    (forall n, n ∈ names ->
       exists r xs,
         d !! n = Some r /\ channel_data s n = Some xs /\
         heap s' !! r = Some xs /\ heap s !! r = None) /\
    channels s' = channels s.
Proof.
  intros Hall.
  destruct (get_data_each_snapshot names s ∅ Hall) as (d & new & Hrun & Hin & Hout).
  exists d, (with_new_lists s new). split.
  { unfold get_data. run. by rewrite Hrun. }
  split; [|split; [|done]].
  - intros n. split.
    + intros Hd. destruct (decide (n ∈ names)) as [|Hn]; [done|].
      rewrite (Hout n Hn), lookup_empty in Hd. by destruct Hd.
    + intros Hn. destruct (Hin n Hn) as (r & xs & -> & _). by eexists.
  - intros n Hn. destruct (Hin n Hn) as (r & xs & Hd & Hxs & Hr & Hle).
    exists r, xs. repeat split; try done. by apply lookup_ge_None.
Qed.
End Reading.

(** ** Range queries on channels with data *)

Section RangeQueries.
Context {T : Type} `{NumberOrder T}.
Implicit Types (xs : list (value T)) (ts : list T) (s : state T).

Lemma channel_data_Some s name xs :
  channel_data s name = Some xs ->
  exists a, channels s !! name = Some a /\ heap s !! a = Some xs.
Proof.
  unfold channel_data. destruct (channels s !! name) as [a|]; [|done].
  simpl. eauto.
Qed.

(** On a channel that holds at least one sample, sorted by timestamp, a
    query with a start time and a duration returns a new list that holds
    exactly the samples with [start_time <= timestamp < start_time +
    duration], in the channel's order; the store is otherwise as it was. *)
Theorem get_data_range_query s name xs ts t0 d :
  channel_data s name = Some xs -> xs <> [] ->
  times (heap s) xs = Some ts -> sorted_times ts = true ->
  num_nan t0 = false -> num_nan (num_add t0 d) = false ->
  get_data (inl name) (Some t0) (Some d) s =
    (Ret (inl (length (heap s))),
     with_new_lists s
       [List.filter (in_window (heap s) t0 (num_add t0 d)) xs]).
Proof.
  intros Hxs Hne Hts Hsorted Hn0 Hn1.
  destruct (channel_data_Some _ _ _ Hxs) as (a & Ha & Hl).
  by rewrite get_data_inl, (get_data_window s name a xs ts t0 d).
Qed.

End RangeQueries.

Section AnyOrder.
Context {T : Type} `{Number T}.
Implicit Types (xs : list (value T)) (ts : list T) (s : state T).

(** Whatever the order of the timestamps: a range query on a channel of
    samples returns one run of consecutive entries of the channel.  The run
    starts at the first sample that is not before the start time and stops
    at the first sample from there on that is not before the stop time; the
    samples after that one are not looked at. *)
Theorem get_data_returns_one_run s name xs ts t0 d :
  channel_data s name = Some xs -> xs <> [] ->
  times (heap s) xs = Some ts ->
  exists k e,
    k <= e <= length xs /\
    get_data (inl name) (Some t0) (Some d) s =
      (Ret (inl (length (heap s))), with_new_lists s [slice xs k e]) /\
    (forall i t, i < k -> ts !! i = Some t -> num_gt t0 t = true) /\
    (forall t, ts !! k = Some t -> num_gt t0 t = false) /\
    (forall i t, k <= i < e -> ts !! i = Some t ->
       num_gt (num_add t0 d) t = true) /\
    (forall t, ts !! e = Some t -> num_gt (num_add t0 d) t = false).
Proof.
  intros Hxs Hne Hts.
  unfold channel_data in Hxs.
  destruct (channels s !! name) as [a|] eqn:Ha; [|done]. simpl in Hxs.
  rewrite get_data_inl, (get_data_channel_found _ _ _ _ _ _ Ha Hxs).
  pose proof (times_length _ _ _ Hts) as Hlen.
  assert (0 < length ts) as Hpos.
  { rewrite Hlen. destruct xs; [done|simpl; lia]. }
  destruct (find_start_spec (heap s) xs ts t0 Hts (S (length xs)) 0)
    as (r & -> & Hr); [lia..|].
  destruct r as [k|].
  - destruct Hr as (Hk & (tk & Htk & Hgk) & Hbefore).
    destruct (find_end_spec (heap s) xs ts (num_add t0 d) Hts
                (S (length xs)) k) as (e & -> & He & Hin & Hout); [lia..|].
    exists k, e. split; [lia|]. split; [done|]. split.
    { intros i t Hi. apply Hbefore. lia. }
    split; [congruence|]. split; done.
  - exists (length xs), (length xs). split; [lia|]. split.
    { unfold slice. by rewrite firstn_all, drop_all. }
    split; [intros i t _; apply Hr; lia|].
    split; [|split].
    + intros t Ht. apply lookup_lt_Some in Ht. lia.
    + intros; lia.
    + intros t Ht. apply lookup_lt_Some in Ht. lia.
Qed.

(** [add_data] takes any value, and a query without start time copies any
    channel; a query with a start time needs samples that are lists.  When
    the first entry of the channel is a number or [None], the query raises
    [TypeError]. *)
Theorem get_data_entry_not_a_list s name v xs t0 duration :
  channel_data s name = Some (v :: xs) ->
  (forall a, v <> VList a) ->
  get_data (inl name) (Some t0) duration s = (Raise TypeError, s) /\
  get_data (inl name) None None s =
    (Ret (inl (length (heap s))), with_new_lists s [v :: xs]).
Proof.
  intros Hxs Hv. unfold channel_data in Hxs.
  destruct (channels s !! name) as [a|] eqn:Ha; [|done]. simpl in Hxs.
  rewrite !get_data_inl, !(get_data_channel_found _ _ _ _ _ _ Ha Hxs).
  split; [|done].
  rewrite find_start_S. unfold later_than, item. simpl.
  destruct v as [| |b]; try done. by destruct (Hv b).
Qed.
End AnyOrder.

(** ** Channels: creation, removal, membership *)

Section Management.
Context {T : Type} `{Number T}.
Implicit Types (xs : list (value T)) (s : state T).

(** [has_data] raises nothing and changes nothing: it is true when the store
    holds the name with at least one entry, and false when the channel is
    empty or the name is not held. *)
Theorem has_data_spec s name :
  well_formed s = true ->
  has_data name s =
    (Ret match channel_data s name with
         | Some (_ :: _) => true
         | _ => false
         end, s).
Proof.
  intros Hwf. unfold has_data, channel_data. run.
  destruct (channels s !! name) as [a|] eqn:Ha; [|done]. simpl.
  destruct (well_formed_channel _ _ _ Hwf Ha) as [xs ->]. by destruct xs.
Qed.

Lemma add_channel_new s name :
  channels s !! name = None ->
  add_channel name s =
    (Ret tt,
     State (heap s ++ [[]]) (<[name := length (heap s)]> (channels s))
           (_eeg_thread s) (_eeg_thread_active s) (_eeg_channel_names s)
           (started s) (stdout s)).
Proof. intros Hn. unfold add_channel. run. by rewrite Hn. Qed.

(** [add_channel] with a name the store does not hold creates an empty
    channel under that name, prints nothing, and leaves the data of every
    other channel as it was. *)
Theorem add_channel_creates_empty s name :
  channels s !! name = None ->
  exists s',
    add_channel name s = (Ret tt, s') /\
    channel_data s' name = Some [] /\
    (forall n xs, channel_data s n = Some xs -> channel_data s' n = Some xs) /\
    (forall n, n <> name -> channels s' !! n = channels s !! n) /\
    stdout s' = stdout s.
Proof.
  intros Hn. eexists. split; [by apply add_channel_new|].
  split; [|split; [|split; [|done]]].
  - unfold channel_data. simpl. rewrite lookup_insert_eq. simpl.
    by rewrite lookup_app_r, Nat.sub_diag.
  - intros n xs. unfold channel_data. simpl.
    destruct (decide (n = name)) as [->|Hne]; [by rewrite Hn|].
    rewrite lookup_insert_ne by done.
    destruct (channels s !! n) as [a|]; [|done]. simpl.
    apply lookup_app_l_Some.
  - intros n Hne. simpl. by rewrite lookup_insert_ne.
Qed.

(** Calling [add_channel] again with the same name never touches the
    channel: in the state any first call leaves, a second call only prints
    that the channel exists. *)
Theorem add_channel_twice s name :
  let s1 := (add_channel name s).2 in
  add_channel name s1 =
    (Ret tt,
     with_output s1 ["Channel with name " +:+ name +:+ " already exists"]).
Proof.
  destruct (channels s !! name) as [a|] eqn:Ha.
  - assert (add_channel name s =
              (Ret tt, with_output s
                 ["Channel with name " +:+ name +:+ " already exists"])) as Hrun
      by (unfold add_channel; run; by rewrite Ha).
    rewrite Hrun. simpl. unfold add_channel. run. by rewrite Ha.
  - rewrite (add_channel_new _ _ Ha). simpl. unfold add_channel. run.
    by rewrite lookup_insert_eq.
Qed.

Lemma remove_channel_found s name a :
  channels s !! name = Some a ->
  remove_channel name s =
    (Ret tt,
     State (heap s) (delete name (channels s)) (_eeg_thread s)
           (_eeg_thread_active s) (_eeg_channel_names s) (started s)
           (stdout s)).
Proof. intros Ha. unfold remove_channel. run. by rewrite Ha. Qed.

(** After [remove_channel] of a name the store holds, the name is gone: a
    query of it raises the exception of a missing channel, [has_data] is
    false, and every other channel holds what it held. *)
Theorem remove_channel_then_query s name start_time duration :
  is_Some (channels s !! name) ->
  exists s',
    remove_channel name s = (Ret tt, s') /\
    get_data (inl name) start_time duration s' =
      (Raise (Exception (missing_line name)), s') /\
    has_data name s' = (Ret false, s') /\
    (forall n, n <> name -> channel_data s' n = channel_data s n) /\
    stdout s' = stdout s.
Proof.
  intros [a Ha]. eexists. split; [by eapply remove_channel_found|].
  split; [|split; [|split; [|done]]].
  - unfold get_data, get_data_channel. run. by rewrite lookup_delete_eq.
  - unfold has_data. run. by rewrite lookup_delete_eq.
  - intros n Hne. unfold channel_data. simpl. by rewrite lookup_delete_ne.
Qed.

(** [remove_channel] of a name the store does not hold only prints. *)
Lemma remove_channel_missing s name :
  channels s !! name = None ->
  remove_channel name s =
    (Ret tt,
     with_output s ["Channel with name " +:+ name +:+ " does not exist"]).
Proof. intros Hn. unfold remove_channel. run. by rewrite Hn. Qed.

(** Creating a channel and removing it again gives back the names the store
    held, with the lists they had; what is left over is the list of the
    channel that was removed, which no name refers to. *)
Theorem add_then_remove_channel s name :
  channels s !! name = None ->
  exists s1,
    add_channel name s = (Ret tt, s1) /\
    remove_channel name s1 = (Ret tt, with_new_lists s [[]]).
Proof.
  intros Hn. eexists. split; [by apply add_channel_new|].
  erewrite remove_channel_found; [|simpl; apply lookup_insert_eq].
  simpl. unfold with_new_lists. by rewrite delete_insert_id.
Qed.

(** After [close] the store holds no channel: [list_channels] is empty,
    [has_data] is false for every name and every query raises the exception
    of a missing channel.  The lists themselves are not touched. *)
Theorem close_forgets_every_channel s name start_time duration :
  exists s',
    close s = (Ret tt, s') /\ heap s' = heap s /\
    list_channels s' = (Ret [], s') /\
    has_data name s' = (Ret false, s') /\
    get_data (inl name) start_time duration s' =
      (Raise (Exception (missing_line name)), s').
Proof.
  eexists. split; [done|]. split; [done|]. split; [|split].
  - unfold list_channels. run. by rewrite map_to_list_empty.
  - unfold has_data. run. by rewrite lookup_empty.
  - unfold get_data, get_data_channel. run. by rewrite lookup_empty.
Qed.

(** [list_channels] changes nothing and returns each name the store holds
    once, and no other name. *)
Theorem list_channels_spec s :
  exists names,
    list_channels s = (Ret names, s) /\ NoDup names /\
    forall n, n ∈ names <-> is_Some (channels s !! n).
Proof.
  eexists. split; [done|]. split; [apply NoDup_fst_map_to_list|].
  intros n. rewrite list_elem_of_fmap. split.
  - intros ([m a] & -> & Hin). apply elem_of_map_to_list in Hin. eauto.
  - intros [a Ha]. exists (n, a). split; [done|].
    by apply elem_of_map_to_list.
Qed.

(** [add_data] on a channel the store holds adds the value at the end of
    that channel, prints nothing and, each name having a list of its own,
    leaves every other channel as it was. *)
Theorem add_data_appends_to_one_channel s name xs v :
  separate_channels s -> channel_data s name = Some xs ->
  exists s',
    add_data name v s = (Ret tt, s') /\
    channel_data s' name = Some (xs ++ [v]) /\
    (forall n, n <> name -> channel_data s' n = channel_data s n) /\
    channels s' = channels s /\ stdout s' = stdout s.
Proof.
  intros Hsep Hxs. unfold channel_data in Hxs.
  destruct (channels s !! name) as [a|] eqn:Ha; [|done]. simpl in Hxs.
  eexists. split; [by apply (add_data_found _ _ _ _ _ Ha Hxs)|].
  split; [|split; [|done]].
  - unfold channel_data. simpl. rewrite Ha. simpl.
    apply list_lookup_insert_eq. by eapply lookup_lt_Some.
  - intros n Hne. unfold channel_data. simpl.
    destruct (channels s !! n) as [b|] eqn:Hb; [|done]. simpl.
    apply list_lookup_insert_ne. intros <-. apply Hne. by eapply Hsep.
Qed.

(** With no call of [lsl_stop] beside it, the loop is [record_loop]. *)
Lemma record_loop_without_stops (ps : list (pull T)) : forall s,
  record_loop_with_stops ((fun p => (p, false)) <$> ps) s = record_loop ps s.
Proof.
  induction ps as [|p ps IH]; intros s; [done|].
  simpl. run. destruct (_eeg_thread_active s); [|done].
  destruct (record_pull p s) as [[[]|e|] s1]; [|done..]. apply IH.
Qed.

End Management.

(** ** The latest entries of several channels *)

Section Latest.
Context {T : Type} `{Number T}.
Implicit Types (xs : list (value T)) (s : state T).

Lemma get_latest_data_each_spec names : forall s acc,
  well_formed s = true ->
  exists d new,
    get_latest_data_each names acc s =
      (Ret d,
       with_output (with_new_lists s new)
         (missing_line <$> filter (fun n => channels s !! n = None) names)) /\
    (forall n, n ∉ names \/ channels s !! n = None -> d !! n = acc !! n) /\
    (forall n xs x, n ∈ names -> channel_data s n = Some (xs ++ [x]) ->
       d !! n = Some x) /\
    (forall n, n ∈ names -> channel_data s n = Some [] ->
       exists e, d !! n = Some (VList e) /\
                 (heap s ++ new) !! e = Some [] /\ length (heap s) <= e).
Proof.
  induction names as [|m names IH]; intros s acc Hwf.
  { exists acc, []. split.
    { simpl. run. unfold with_output, with_new_lists. simpl.
      rewrite !app_nil_r. by destruct s. }
    split; [done|]. split; intros n; intros; by apply elem_of_nil in H0. }
  simpl. run. destruct (channels s !! m) as [a|] eqn:Ha.
  - destruct (well_formed_channel _ _ _ Hwf Ha) as [ys Hys]. rewrite Hys.
    assert (channel_data s m = Some ys) as Hcd
      by (unfold channel_data; by rewrite Ha).
    rewrite filter_cons_False by congruence.
    destruct ys as [|y ys].
    + run.
      destruct (IH (new_list [] s).2 (<[m:=VList (length (heap s))]> acc))
        as (d & new & Hrun & Hsame & Hlast & Hempty).
      { apply well_formed_new_list; [done|]. intros v Hv.
        by apply elem_of_nil in Hv. }
      simpl in Hrun. exists d, ([[]] ++ new). split.
      { rewrite Hrun. unfold with_output, with_new_lists. simpl.
        by rewrite <- app_assoc. }
      split; [|split].
      * intros n Hn. rewrite Hsame.
        -- apply lookup_insert_ne. intros <-. destruct Hn as [Hn|Hn]; [|congruence].
           apply Hn. by left.
        -- destruct Hn as [Hn|Hn]; [left|by right].
           by apply not_elem_of_cons in Hn as [_ ?].
      * intros n xs x Hn Hxs. destruct (decide (n ∈ names)) as [Hin|Hnin].
        -- apply (Hlast n xs x Hin).
           by apply (channel_data_with_new_lists s [[]]).
        -- apply elem_of_cons in Hn as [->|?]; [|done].
           rewrite Hcd in Hxs. by destruct xs.
      * intros n Hn Hxs. destruct (decide (n ∈ names)) as [Hin|Hnin].
        -- destruct (Hempty n Hin) as (e & He & Hl & Hle).
           { by apply (channel_data_with_new_lists s [[]]). }
           exists e. simpl in Hl, Hle. rewrite length_app in Hle. simpl in Hle.
           rewrite <- app_assoc in Hl. repeat split; try done. lia.
        -- apply elem_of_cons in Hn as [->|?]; [|done].
           exists (length (heap s)). rewrite Hsame by (by left).
           rewrite lookup_insert_eq. repeat split; try done.
           by rewrite lookup_app_r, Nat.sub_diag.
    + assert (get_latest_data_channel m s =
                (match last (y :: ys) with
                 | Some x => Ret x
                 | None => Raise IndexError
                 end, s)) as Hq.
      { unfold get_latest_data_channel. run. rewrite Ha, Hys.
        by destruct (last (y :: ys)). }
      rewrite Hq. destruct (last (y :: ys)) as [x|] eqn:Hl.
      2: { by apply last_None in Hl. }
      destruct (IH s (<[m:=x]> acc) Hwf)
        as (d & new & Hrun & Hsame & Hlast & Hempty).
      exists d, new. split; [done|]. split; [|split].
      * intros n Hn. rewrite Hsame.
        -- apply lookup_insert_ne. intros <-. destruct Hn as [Hn|Hn]; [|congruence].
           apply Hn. by left.
        -- destruct Hn as [Hn|Hn]; [left|by right].
           by apply not_elem_of_cons in Hn as [_ ?].
      * intros n xs x' Hn Hxs. destruct (decide (n ∈ names)) as [Hin|Hnin].
        -- by apply (Hlast n xs x' Hin).
        -- apply elem_of_cons in Hn as [->|?]; [|done].
           rewrite Hsame by (by left). rewrite lookup_insert_eq.
           rewrite Hcd in Hxs. injection Hxs as Hxs. rewrite Hxs in Hl.
           rewrite last_snoc in Hl. congruence.
      * intros n Hn Hxs. destruct (decide (n ∈ names)) as [Hin|Hnin].
        -- by apply Hempty.
        -- apply elem_of_cons in Hn as [->|?]; [|done]. congruence.
  - rewrite filter_cons_True by done.
    destruct (IH (with_output s [missing_line m]) acc Hwf)
      as (d & new & Hrun & Hsame & Hlast & Hempty).
    exists d, new. split.
    { unfold print. fold (missing_line m).
      change (State (heap s) (channels s) (_eeg_thread s)
                (_eeg_thread_active s) (_eeg_channel_names s) (started s)
                (stdout s ++ [missing_line m]))
        with (with_output s [missing_line m]).
      rewrite Hrun. unfold with_output, with_new_lists. simpl.
      by rewrite <- app_assoc. }
    split; [|split].
    * intros n Hn. apply Hsame. destruct Hn as [Hn|Hn]; [|by right].
      destruct (decide (n = m)) as [->|Hne]; [by right|]. left.
      by apply not_elem_of_cons in Hn as [_ ?].
    * intros n xs x Hn Hxs. apply (Hlast n xs x); [|done].
      apply elem_of_cons in Hn as [->|?]; [|done].
      unfold channel_data in Hxs. by rewrite Ha in Hxs.
    * intros n Hn Hxs. apply Hempty; [|done].
      apply elem_of_cons in Hn as [->|?]; [|done].
      unfold channel_data in Hxs. by rewrite Ha in Hxs.
Qed.

(** [get_latest_data] on a list of names raises nothing, whatever the names.
    The dictionary it returns has a key for each name of the list that the
    store holds, and no other: with the last entry of the channel, or, when
    the channel is empty, with a new empty list.  For each name of the list
    that the store does not hold it prints a line, in the order of the
    list.  The channels are as they were. *)
Theorem get_latest_data_list_spec (s : state T) names :
  well_formed s = true ->
  exists d s',
    get_latest_data (inr names) s = (Ret (inr d), s') /\
    channels s' = channels s /\
    stdout s' =
      stdout s ++
        (missing_line <$> filter (fun n => channels s !! n = None) names) /\
    (forall n, is_Some (d !! n) <-> n ∈ names /\ is_Some (channels s !! n)) /\
    (forall n xs x, n ∈ names -> channel_data s n = Some (xs ++ [x]) ->
       d !! n = Some x) /\
    (forall n, n ∈ names -> channel_data s n = Some [] ->
       exists e, d !! n = Some (VList e) /\
                 heap s' !! e = Some [] /\ heap s !! e = None).
Proof.
  intros Hwf.
  destruct (get_latest_data_each_spec names s ∅ Hwf)
    as (d & new & Hrun & Hsame & Hlast & Hempty).
  eexists d, _. split.
  { unfold get_latest_data. run. by rewrite Hrun. }
  simpl. split; [done|]. split; [done|]. split; [|split; [done|]].
  - intros n. split.
    + intros Hd. destruct (decide (n ∈ names)) as [Hin|Hnin].
      * split; [done|]. destruct (channels s !! n) eqn:Hn; [done|].
        rewrite Hsame, lookup_empty in Hd by (by right). by destruct Hd.
      * rewrite Hsame, lookup_empty in Hd by (by left). by destruct Hd.
    + intros [Hin [a Ha]].
      destruct (well_formed_channel _ _ _ Hwf Ha) as [ys Hys].
      assert (channel_data s n = Some ys) as Hcd
        by (unfold channel_data; by rewrite Ha).
      destruct (last ys) as [x|] eqn:Hl.
      * apply last_Some in Hl as [xs ->]. rewrite (Hlast n xs x Hin Hcd).
        by eexists.
      * apply last_None in Hl as ->.
        destruct (Hempty n Hin Hcd) as (e & -> & _). by eexists.
  - intros n Hin Hcd. destruct (Hempty n Hin Hcd) as (e & Hd & Hl & Hle).
    exists e. repeat split; try done. by apply lookup_ge_None.
Qed.
End Latest.

(** ** Recording, then reading *)

Section RecordThenRead.
Context {T : Type} `{NumberOrder T}.
Implicit Types (xs : list (value T)) (ts : list T) (s : state T).

Lemma times_filter h xs ts a b :
  times h xs = Some ts ->
  times h (List.filter (in_window h a b) xs) =
    Some (List.filter (fun t => negb (num_gt a t) && num_gt b t) ts).
Proof.
  unfold times. rewrite !mapM_Some. intros HF.
  induction HF as [|v t xs ts Hv HF IH]; simpl; [constructor|].
  unfold in_window at 1. rewrite Hv.
  destruct (negb (num_gt a t) && num_gt b t); [by constructor|done].
Qed.

Lemma record_loop_grows ns locs ps s :
  _eeg_thread_active s = true ->
  _eeg_channel_names s = Some ns ->
  Forall2 (fun n a => channels s !! n = Some a) ns locs ->
  NoDup locs ->
  Forall (fun a => a < length (heap s)) locs ->
  Forall (fun p => length (samples p) <= length ns) ps ->
  exists s',
    record_loop ps s = (Ret tt, s') /\
    channels s' = channels s /\
    grown (heap s) (heap s') /\
    forall i name old, ns !! i = Some name ->
      channel_data s name = Some old ->
      exists bs,
        channel_data s' name = Some (old ++ (VList <$> bs)) /\
        Forall2 (fun b tx => heap s' !! b = Some [VNum tx.1; VNum tx.2])
                bs (reported i ps).
Proof.
  intros Hact Hns Hlocs Hnd Hbound Hlens.
  destruct (record_loop_heap ns locs ps s Hact Hns Hlocs Hnd Hbound Hlens)
    as (s' & Hloop & Hch & _ & Hkeep & Hchan).
  exists s'. split; [done|]. split; [done|]. split.
  - intros b ys Hys. destruct (decide (b ∈ locs)) as [Hin|Hnin].
    + apply list_elem_of_lookup in Hin as [i Hi].
      destruct (Hchan i b Hi) as (old & bs & Hold & Hnew & _).
      exists (VList <$> bs). congruence.
    + exists []. rewrite app_nil_r. by apply Hkeep.
  - intros i name old Hname Hold.
    destruct (Forall2_lookup_l _ _ _ _ _ Hlocs Hname) as (a & Ha & Hca).
    destruct (Hchan i a Ha) as (old' & bs & Hold' & Hnew & Hbs & _).
    unfold channel_data in Hold. rewrite Hca in Hold. simpl in Hold.
    assert (old' = old) as -> by congruence.
    exists bs. split; [|done]. unfold channel_data. by rewrite Hch, Hca.
Qed.

(** Recording, then a range query.  After the loop of the thread has taken
    the pulls, the timestamps of the channel of index [i] are those it had
    followed by the corrected timestamps of the pulls that have a value at
    [i]; and when these are sorted, a query with a start time and a duration
    returns the samples, old and new, whose timestamps lie in the window. *)
Theorem record_then_range_query s ns locs ps i name old ts t0 d :
  _eeg_thread_active s = true ->
  _eeg_channel_names s = Some ns ->
  Forall2 (fun n a => channels s !! n = Some a) ns locs ->
  NoDup locs ->
  Forall (fun a => a < length (heap s)) locs ->
  Forall (fun p => length (samples p) <= length ns) ps ->
  ns !! i = Some name ->
  channel_data s name = Some old -> times (heap s) old = Some ts ->
  ts ++ (reported i ps).*1 <> [] ->
  sorted_times (ts ++ (reported i ps).*1) = true ->
  num_nan t0 = false -> num_nan (num_add t0 d) = false ->
  exists s1 xs s2 r ys,
    record_loop ps s = (Ret tt, s1) /\
    channel_data s1 name = Some xs /\
    times (heap s1) xs = Some (ts ++ (reported i ps).*1) /\
    get_data (inl name) (Some t0) (Some d) s1 = (Ret (inl r), s2) /\
    heap s2 !! r = Some ys /\
    times (heap s2) ys =
      Some (List.filter
              (fun t => negb (num_gt t0 t) && num_gt (num_add t0 d) t)
              (ts ++ (reported i ps).*1)).
Proof.
  intros Hact Hns Hlocs Hnd Hbound Hlens Hname Hold Hts Hne Hsorted Hn0 Hn1.
  destruct (record_loop_grows ns locs ps s Hact Hns Hlocs Hnd Hbound Hlens)
    as (s1 & Hloop & Hch & Hgrown & Hchan).
  destruct (Hchan i name old Hname Hold) as (bs & Hnew & Hbs).
  assert (times (heap s1) (old ++ (VList <$> bs)) =
            Some (ts ++ (reported i ps).*1)) as Hts1.
  { unfold times. apply mapM_Some. apply Forall2_app.
    - apply mapM_Some. by eapply grown_times.
    - apply Forall2_fmap_l, Forall2_fmap_r.
      eapply Forall2_impl; [exact Hbs|]. intros b tx Hb. simpl. by rewrite Hb. }
  destruct (channel_data_Some _ _ _ Hnew) as (a & Ha & Hl).
  assert (old ++ (VList <$> bs) <> []) as Hne1.
  { intros Hnil. apply Hne. rewrite Hnil in Hts1.
    simpl in Hts1. by injection Hts1 as <-. }
  exists s1, (old ++ (VList <$> bs)). eexists _, _, _.
  split; [done|]. split; [done|]. split; [done|]. split.
  { rewrite get_data_inl.
    by rewrite (get_data_window s1 name a _ _ t0 d Ha Hl Hne1 Hts1 Hsorted). }
  simpl. split; [by rewrite lookup_app_r, Nat.sub_diag|].
  eapply grown_times; [apply grown_app|]. by apply times_filter.
Qed.
End RecordThenRead.

(** ** All the channels of the stream *)

Section EegData.
Context {T : Type} `{Number T}.
Implicit Types (xs : list (value T)) (s : state T).

(** Once the thread has run on a connected stream, [get_eeg_data] without
    start time returns a dictionary with one key for each channel name the
    stream advertises, each with a new copy of that channel's list.  Before
    [lsl_connect] there are no names, and it raises. *)
Theorem get_eeg_data_after_recording s ns ps :
  well_formed s = true -> separate_channels s ->
  _eeg_thread_active s = true ->
  _eeg_channel_names s = Some ns -> NoDup ns ->
  Forall (fun p => length (samples p) <= length ns) ps ->
  (forall s0 start_time duration,
     _eeg_channel_names s0 = None ->
     get_eeg_data start_time duration s0 =
       (Raise (Exception "A channel with name None does not exist"), s0)) /\
  exists s1 d s2,
    _record_lsl_data_indefinitely ps s = (Ret tt, s1) /\
    get_eeg_data None None s1 = (Ret (inr d), s2) /\
    (forall n, is_Some (d !! n) <-> n ∈ ns) /\
    (forall n, n ∈ ns ->
       exists r xs,
         d !! n = Some r /\ channel_data s1 n = Some xs /\
         heap s2 !! r = Some xs /\ heap s1 !! r = None).
Proof.
  intros Hwf Hsep Hact Hns Hnd Hlens. split.
  { intros s0 st d Hnone. unfold get_eeg_data. run. by rewrite Hnone. }
  destruct (record_thread_run s ns ps Hwf Hsep Hact Hns Hnd Hlens)
    as (s1 & Hrun & Hns1 & Hres).
  assert (forall n, n ∈ ns -> is_Some (channel_data s1 n)) as Hall.
  { intros n Hn. apply list_elem_of_lookup in Hn as [i Hi].
    destruct (Hres i n Hi) as (bs & -> & _). by eexists. }
  destruct (get_data_each_snapshot ns s1 ∅ Hall) as (d & new & Hq & Hin & Hout).
  exists s1, d, (with_new_lists s1 new). split; [done|]. split.
  { unfold get_eeg_data, get_data. run. rewrite Hns1. run. by rewrite Hq. }
  split.
  - intros n. split.
    + intros Hd. destruct (decide (n ∈ ns)) as [|Hn]; [done|].
      rewrite (Hout n Hn), lookup_empty in Hd. by destruct Hd.
    + intros Hn. destruct (Hin n Hn) as (r & xs & -> & _). by eexists.
  - intros n Hn. destruct (Hin n Hn) as (r & xs & Hd & Hxs & Hr & Hle).
    exists r, xs. repeat split; try done. by apply lookup_ge_None.
Qed.
End EegData.

(** ** A pull with more values than the stream has names *)

Section TooManyValues.
Context {T : Type} `{Number T}.
Implicit Types (xs : list (value T)) (s : state T).

Lemma for_each_app {A} (body : A -> M T unit) items more s :
  for_each (items ++ more) body s =
    match for_each items body s with
    | (Ret _, s1) => for_each more body s1
    | other => other
    end.
Proof.
  revert s. induction items as [|x items IH]; intros s; [done|].
  simpl. run. destruct (body x s) as [[[]|e|] s1]; [apply IH|done..].
Qed.

Lemma for_each_ext {A} (f g : A -> M T unit) items :
  (forall x s, x ∈ items -> f x s = g x s) ->
  forall s, for_each items f s = for_each items g s.
Proof.
  induction items as [|x items IH]; intros Hfg s; [done|].
  simpl. run. rewrite (Hfg x s) by by left.
  destruct (g x s) as [[[]|e|] s1]; [|done..].
  apply IH. intros y s' Hy. apply Hfg. by right.
Qed.

(** When a pull has more values than the stream has channel names, the loop
    stores the values that have a name, one sample in each named channel,
    and then raises [IndexError] on the first value without a name: the
    thread ends there and takes no further pull. *)
Theorem record_loop_more_values_than_names s ns locs p inlet :
  _eeg_thread_active s = true ->
  _eeg_channel_names s = Some ns ->
  Forall2 (fun n a => channels s !! n = Some a) ns locs ->
  NoDup locs ->
  Forall (fun a => a < length (heap s)) locs ->
  length ns < length (samples p) ->
  exists s',
    record_loop (p :: inlet) s = (Raise IndexError, s') /\
    channels s' = channels s /\
    forall i name, ns !! i = Some name ->
      exists old x,
        channel_data s name = Some old /\ samples p !! i = Some x /\
        channel_data s' name = Some (old ++ [VList (length (heap s) + i)]) /\
        heap s' !! (length (heap s) + i) =
          Some [VNum (num_add (timestamp p) (time_correction p)); VNum x].
Proof.
  intros Hact Hns Hlocs Hnd Hbound Hlen.
  set (p' := Pull (take (length ns) (samples p)) (timestamp p)
                  (time_correction p)).
  assert (length (samples p') = length ns) as Hlen'
    by (simpl; rewrite length_take; lia).
  destruct (record_pull_spec s p' ns locs Hns Hlocs Hnd Hbound)
    as (s1 & Hrun & Hch & Hn & Hact1 & Hl & Hnew & Hchan & Hrest); [lia|].
  unfold record_pull in Hrun. rewrite Hlen' in Hrun, Hnew, Hchan.
  assert (for_each (seq 0 (length ns)) (record_sample p) s = (Ret tt, s1))
    as Hfirst.
  { rewrite <- Hrun. apply for_each_ext. intros i σ Hi.
    apply elem_of_seq in Hi. unfold record_sample, p', item. simpl.
    by rewrite lookup_take_lt by lia. }
  exists s1. split; [|split; [done|]].
  - simpl. run. rewrite Hact. unfold record_pull.
    replace (length (samples p))
      with (length ns + S (length (samples p) - S (length ns))) by lia.
    rewrite seq_app, for_each_app, Hfirst. simpl. run.
    unfold record_sample at 1, item. run. rewrite Hn, Hns.
    by rewrite (lookup_ge_None_2 ns (length ns)) by lia.
  - intros i name Hname.
    destruct (Forall2_lookup_l _ _ _ _ _ Hlocs Hname) as (a & Ha & Hca).
    pose proof (Forall_lookup_1 _ _ _ _ Hbound Ha) as Hlt. simpl in Hlt.
    destruct (lookup_lt_is_Some_2 (heap s) a Hlt) as [old Hold].
    apply lookup_lt_Some in Hname as Hi.
    destruct (lookup_lt_is_Some_2 (samples p) i) as [x Hx]; [lia|].
    exists old, x. unfold channel_data. rewrite Hch, Hca. simpl.
    split; [done|]. split; [done|]. split.
    + rewrite (Hchan i a Ha), Hold. by case_decide; [|lia].
    + apply Hnew; [lia|]. simpl. by rewrite lookup_take_lt by lia.
Qed.
End TooManyValues.

(** ** What every method keeps *)

Section Invariant.
Context {T : Type} `{Number T}.
Implicit Types (xs : list (value T)) (s : state T).

Lemma store_ok_same s s' :
  heap s' = heap s -> channels s' = channels s -> store_ok s -> store_ok s'.
Proof.
  intros Hh Hc [Hwf Hsep]. split.
  - unfold well_formed in *. by rewrite Hh, Hc.
  - unfold separate_channels in *. by rewrite Hc.
Qed.

Lemma store_ok_new_list s ys :
  store_ok s ->
  (forall v, v ∈ ys -> closed_value (length (heap s)) v = true) ->
  store_ok (with_new_lists s [ys]).
Proof.
  intros [Hwf Hsep] Hys. split; [|done].
  by apply (well_formed_new_list s ys).
Qed.

Lemma store_ok_add_channel s name :
  store_ok s -> store_ok (add_channel name s).2.
Proof.
  intros [Hwf Hsep]. destruct (channels s !! name) as [a|] eqn:Ha.
  - unfold add_channel. run. rewrite Ha. by apply (store_ok_same s).
  - destruct (create_channel_spec s name Hwf Hsep) as (s' & Hrun & Hwf' & Hsep' & _).
    assert (create_channel name s = add_channel name s) as Heq.
    { unfold create_channel, list_channels. run.
      destruct (existsb _ _) eqn:Hex; [|done].
      apply in_list_channels in Hex as [b Hb]. congruence. }
    rewrite <- Heq, Hrun. by split.
Qed.

Lemma store_ok_remove_channel s name :
  store_ok s -> store_ok (remove_channel name s).2.
Proof.
  intros [Hwf Hsep]. unfold remove_channel. run.
  destruct (channels s !! name) as [a|] eqn:Ha; [|by apply (store_ok_same s)].
  split.
  - apply well_formed_intro; simpl.
    + intros xs v Hxs Hv. apply list_elem_of_lookup in Hxs as [b Hb].
      by eapply well_formed_heap.
    + intros n b Hb. apply lookup_delete_Some in Hb as [_ Hb].
      by eapply well_formed_bound.
  - intros n1 n2 b. simpl. rewrite !lookup_delete_Some.
    intros [_ H1] [_ H2]. by eapply Hsep.
Qed.

Lemma store_ok_close s : store_ok s -> store_ok (close s).2.
Proof.
  intros [Hwf Hsep]. split.
  - apply well_formed_intro; simpl.
    + intros xs v Hxs Hv. apply list_elem_of_lookup in Hxs as [b Hb].
      by eapply well_formed_heap.
    + intros n b Hb. by rewrite lookup_empty in Hb.
  - intros n1 n2 b Hb. simpl in Hb. by rewrite lookup_empty in Hb.
Qed.

Lemma store_ok_add_data s name v :
  store_ok s -> closed_value (length (heap s)) v = true ->
  store_ok (add_data name v s).2.
Proof.
  intros [Hwf Hsep] Hv.
  destruct (add_data_state s name v)
    as [(a & ys & Ha & Hys & ->)|[[_ ->]|(a & _ & _ & ->)]];
    [|by apply (store_ok_same s)|done].
  split; [|done]. apply well_formed_intro; simpl.
  - rewrite length_insert. intros xs w Hxs Hw.
    apply list_elem_of_lookup in Hxs as [b Hb].
    apply list_lookup_insert_Some in Hb as [(_ & <- & _)|[_ Hb]].
    + apply elem_of_app in Hw as [Hw|Hw].
      * by eapply well_formed_heap.
      * by apply list_elem_of_singleton in Hw as ->.
    + by eapply well_formed_heap.
  - rewrite length_insert. intros n b Hb. by eapply well_formed_bound.
Qed.

Lemma store_ok_get_data_channel s name start_time duration :
  store_ok s -> store_ok (get_data_channel name start_time duration s).2.
Proof.
  intros [Hwf Hsep].
  pose proof (get_data_channel_defined s name start_time duration Hwf) as Hd.
  destruct (get_data_channel _ _ _ _) as [[r|e|] s']; simpl; [| |done].
  - destruct Hd as [Hwf' Hch]. split; [done|].
    unfold separate_channels. by rewrite Hch.
  - by subst s'.
Qed.

Lemma store_ok_get_data_each names : forall s start_time duration acc,
  store_ok s -> store_ok (get_data_each names start_time duration acc s).2.
Proof.
  induction names as [|n names IH]; intros s st d acc Hok; [done|].
  simpl. run.
  pose proof (store_ok_get_data_channel s n st d Hok) as Hok1.
  destruct (get_data_channel n st d s) as [[r|e|] s1]; simpl in *; [|done..].
  by apply IH.
Qed.

Lemma store_ok_get_data s chs start_time duration :
  store_ok s -> store_ok (get_data chs start_time duration s).2.
Proof.
  intros Hok. destruct chs as [name|names]; unfold get_data; run.
  - pose proof (store_ok_get_data_channel s name start_time duration Hok).
    by destruct (get_data_channel _ _ _ _) as [[| |] ?].
  - pose proof (store_ok_get_data_each names s start_time duration ∅ Hok).
    by destruct (get_data_each _ _ _ _ _) as [[| |] ?].
Qed.

Lemma get_latest_data_channel_state s name :
  (get_latest_data_channel name s).2 = s.
Proof.
  unfold get_latest_data_channel. run.
  destruct (channels s !! name) as [a|]; [|done].
  destruct (heap s !! a) as [xs|]; [|done]. by destruct (last xs).
Qed.

Lemma store_ok_get_latest_data_each names : forall s acc,
  store_ok s -> store_ok (get_latest_data_each names acc s).2.
Proof.
  induction names as [|n names IH]; intros s acc Hok; [done|].
  simpl. run. destruct (channels s !! n) as [a|].
  - destruct (heap s !! a) as [[|y ys]|]; [| |done].
    + run. apply IH. apply (store_ok_new_list s []); [done|].
      intros v Hv. by apply elem_of_nil in Hv.
    + pose proof (get_latest_data_channel_state s n) as Hs.
      destruct (get_latest_data_channel n s) as [[x|e|] s1]; simpl in Hs;
        subst s1; [|done..].
      by apply IH.
  - apply IH. by apply (store_ok_same s).
Qed.

Lemma store_ok_record_sample s p i o s' :
  store_ok s -> record_sample p i s = (o, s') -> store_ok s'.
Proof.
  intros Hok Hrun.
  destruct (record_sample_state s p i) as [[e He]|(x & _ & name & Hs)].
  { rewrite He in Hrun. by injection Hrun as _ <-. }
  rewrite Hs in Hrun.
  replace s' with
    (add_data name (VList (length (heap s)))
       (with_new_lists s
          [[VNum (num_add (timestamp p) (time_correction p)); VNum x]])).2
    by by rewrite Hrun.
  apply store_ok_add_data.
  - apply store_ok_new_list; [done|]. intros v Hv.
    repeat (apply elem_of_cons in Hv as [->|Hv]; [done|]).
    by apply elem_of_nil in Hv.
  - simpl. rewrite length_app. simpl. apply Nat.ltb_lt. lia.
Qed.

Lemma store_ok_record_loop inlet : forall s o s',
  store_ok s -> record_loop inlet s = (o, s') -> store_ok s'.
Proof.
  induction inlet as [|p inlet IH]; intros s o s' Hok Hrun.
  { simpl in Hrun. by injection Hrun as _ <-. }
  simpl in Hrun. revert Hrun. run.
  destruct (_eeg_thread_active s).
  2: { intros Hrun. by injection Hrun as _ <-. }
  destruct (record_pull p s) as [o1 s1] eqn:Hpull.
  assert (store_ok s1) as Hok1.
  { unfold record_pull in Hpull.
    eapply (for_each_keeps store_ok (record_sample p)); [|exact Hok|exact Hpull].
    intros i σ o' σ' Hσ Hb. by eapply store_ok_record_sample. }
  destruct o1 as [[]|e|]; intros Hrun.
  - by eapply IH.
  - by injection Hrun as _ <-.
  - by injection Hrun as _ <-.
Qed.

Lemma store_ok_record_thread s inlet :
  store_ok s -> store_ok (_record_lsl_data_indefinitely inlet s).2.
Proof.
  intros Hok. unfold _record_lsl_data_indefinitely. run.
  destruct (_eeg_channel_names s) as [ns|]; [|done]. run.
  destruct (for_each ns create_channel s) as [o1 s1] eqn:Hcreate.
  assert (store_ok s1) as Hok1.
  { eapply (for_each_keeps store_ok create_channel); [|exact Hok|exact Hcreate].
    intros n σ o' σ' [Hwf Hsep] Hb.
    destruct (create_channel_spec σ n Hwf Hsep) as (σ1 & Hrun & Hwf' & Hsep' & _).
    rewrite Hrun in Hb. injection Hb as _ <-. by split. }
  destruct o1 as [[]|e|]; [|done..].
  destruct (record_loop inlet s1) as [o s'] eqn:Hloop.
  by eapply store_ok_record_loop.
Qed.

Lemma store_ok_mutate_list s a ys :
  store_ok s ->
  (forall v, v ∈ ys -> closed_value (length (heap s)) v = true) ->
  store_ok (mutate_list a ys s).
Proof.
  intros [Hwf Hsep] Hys. split; [|done]. apply well_formed_intro; simpl.
  - rewrite length_insert. intros xs w Hxs Hw.
    apply list_elem_of_lookup in Hxs as [b Hb].
    apply list_lookup_insert_Some in Hb as [(_ & <- & _)|[_ Hb]].
    + by apply Hys.
    + by eapply well_formed_heap.
  - rewrite length_insert. intros n b Hb. by eapply well_formed_bound.
Qed.

Lemma store_ok_perform s c :
  store_ok s -> admissible s c = true -> store_ok (perform c s).
Proof.
  intros Hok Hc. destruct c; simpl.
  - apply (store_ok_new_list s items Hok). simpl in Hc.
    intros v Hv. rewrite forallb_forall in Hc.
    by apply Hc, list_elem_of_In.
  - simpl in Hc. apply andb_true_iff in Hc as [_ Hc].
    apply (store_ok_mutate_list s a items Hok).
    intros v Hv. rewrite forallb_forall in Hc.
    by apply Hc, list_elem_of_In.
  - by apply store_ok_add_channel.
  - by apply store_ok_remove_channel.
  - by apply store_ok_close.
  - by apply store_ok_add_data.
  - by apply store_ok_get_data.
  - assert ((get_eeg_data start_time duration s).2 =
              match _eeg_channel_names s with
              | Some names => (get_data (inr names) start_time duration s).2
              | None => s
              end) as ->.
    { unfold get_eeg_data. run. by destruct (_eeg_channel_names s). }
    destruct (_eeg_channel_names s); [by apply store_ok_get_data|done].
  - destruct chs as [name|names]; unfold get_latest_data; run.
    + pose proof (get_latest_data_channel_state s name) as Hs.
      destruct (get_latest_data_channel name s) as [[| |] s1]; simpl in Hs;
        by subst s1.
    + pose proof (store_ok_get_latest_data_each names s ∅ Hok).
      by destruct (get_latest_data_each _ _ _) as [[| |] ?].
  - unfold has_data. run. destruct (channels s !! channel) as [a|]; [|done].
    by destruct (heap s !! a).
  - done.
  - by apply (store_ok_same s).
  - by apply (store_ok_same s).
  - by apply (store_ok_same s).
  - by apply store_ok_record_thread.
Qed.

(** From a new stream, whatever methods are called and in whatever order,
    whether they return or raise, and whatever lists the caller builds in
    between (the samples it gives to [add_data] among them) or writes to
    (the lists the queries returned and the samples reached through them
    among them): every name of the store has a list of its own, which no
    other name shares, and nothing in the store refers to a list that does
    not exist. *)
Theorem methods_keep_channels_apart calls (s : state T) :
  perform_all calls init = Some s ->
  well_formed s = true /\ separate_channels s.
Proof.
  assert (forall s0, store_ok s0 -> perform_all calls s0 = Some s -> store_ok s)
    as Hgen.
  { induction calls as [|c calls IH]; intros s0 Hok Hrun.
    - simpl in Hrun. by injection Hrun as <-.
    - simpl in Hrun. destruct (admissible s0 c) eqn:Hc; [|done].
      eapply IH; [|exact Hrun]. by apply store_ok_perform. }
  intros Hrun. apply (Hgen init); [|done]. apply @init_well_formed.
Qed.
End Invariant.
(** ** The properties on the example stores *)

Section Examples.
Local Open Scope float_scope.

(** The range query of the specification's example: on timestamps
    [0, 1, 2, 3, 4, 5], start time 2 and duration 2 select the samples
    timestamped 2 and 3. *)
Example get_data_window_0_to_5 :
  returned_times (get_data (inl "ch") (Some 2) (Some 2) store_0_to_5) =
    Some [2; 3].
Proof. vm_compute. reflexivity. Qed.

Example get_data_window_0_to_5_from_lemma :
  get_data_channel "ch" (Some 2) (Some 2) store_0_to_5 =
    new_list [VList 3; VList 4] store_0_to_5.
Proof.
  rewrite (get_data_window store_0_to_5 "ch" 0 channel_0_to_5
             [0; 1; 2; 3; 4; 5] 2 2); try (vm_compute; reflexivity).
  vm_compute. discriminate.
Qed.

(** C1, where the code fails it. The new channel ["ch"] holds no sample, so
    its samples are sorted and none lies in the window from 2 to 4; the
    specification has the query return the empty sequence.  The code raises
    [IndexError]. *)
Theorem get_data_window_empty_channel :
  channel_data (empty_channel_store (T := float)) "ch" = Some [] /\
  times (heap (empty_channel_store (T := float))) [] = Some [] /\
  sorted_times (T := float) [] = true /\
  get_data (inl "ch") (Some 2) (Some 2) empty_channel_store =
    (Raise IndexError, empty_channel_store).
Proof. repeat split; vm_compute; reflexivity. Qed.

Lemma append_query_round_trip_witness :
  exists s1 s2 r,
    for_each [VList 1; VList 2] (add_data "ch")
      (State [[]; [VNum 0; VNum 7]; [VNum 1; VNum 8]] {["ch" := 0%nat]}
             None false None 0 []) = (Ret tt, s1) /\
    get_data (inl "ch") None None s1 = (Ret (inl r), s2) /\
    heap s2 !! r = Some ([] ++ [VList 1; VList 2]) /\
    heap s1 !! r = None /\
    (forall ys,
       take (length (heap s1)) (heap (mutate_list r ys s2)) = heap s1 /\
       channels (mutate_list r ys s2) = channels s1 /\
       channel_data (mutate_list r ys s2) "ch" =
         Some ([] ++ [VList 1; VList 2])) /\
    (forall b ys,
       VList b ∈ [] ++ [VList 1; VList 2 : value float] ->
       (b < length (heap s1))%nat ->
       take (length (heap s1)) (heap (mutate_list b ys s2)) =
         <[b := ys]> (heap s1) /\
       heap (mutate_list b ys s2) !! b = Some ys /\
       channels (mutate_list b ys s2) = channels s1).
Proof.
  apply (append_query_round_trip
           (State [[]; [VNum 0; VNum 7]; [VNum 1; VNum 8]] {["ch" := 0%nat]}
                  None false None 0 []) "ch" 0 [] [VList 1; VList 2]);
    reflexivity.
Defined.

(** C2, as stated, fails: the list returned for [store_0_to_5] is a new
    object, but its first entry is the store's first sample, at address 1;
    a caller who writes [r[0][0] = 99.0] through the returned list [r]
    changes the timestamps the store holds. *)
Lemma returned_samples_are_shared :
  heap (get_data (inl "ch") None None store_0_to_5).2 !! 7%nat =
    Some channel_0_to_5 /\
  (xs ← channel_data (get_data (inl "ch") None None store_0_to_5).2 "ch";
   times (heap (get_data (inl "ch") None None store_0_to_5).2) xs) =
    Some [0; 1; 2; 3; 4; 5] /\
  (xs ← channel_data
         (mutate_list 1 [VNum 99; VNum 0]
            (get_data (inl "ch") None None store_0_to_5).2) "ch";
   times (heap (mutate_list 1 [VNum 99; VNum 0]
                  (get_data (inl "ch") None None store_0_to_5).2)) xs) =
    Some [99; 1; 2; 3; 4; 5].
Proof. repeat split; vm_compute; reflexivity. Qed.

(** C3, as stated, fails: on a new stream, [add_data] on the name ["nope"]
    returns normally. *)
Lemma add_data_missing_channel_returns :
  (add_data "nope" (VNum 1) (init (T := float))).1 = Ret tt.
Proof. reflexivity. Qed.

Lemma add_data_missing_channel_witness :
  exists s',
    add_data "nope" (VNum 1) store_0_to_5 = (Ret tt, s') /\
    channels s' = channels store_0_to_5 /\ heap s' = heap store_0_to_5 /\
    stdout s' =
      stdout store_0_to_5 ++
        ["A channel with name " +:+ "nope" +:+ " does not exist"].
Proof.
  apply (add_data_missing_channel store_0_to_5 "nope" (VNum 1)).
  vm_compute. reflexivity.
Defined.

(** C4, as stated, fails: a stream that is recording accepts [lsl_start]
    again, without an error, and a second thread is started. *)
Lemma lsl_start_twice :
  exists s1 s2 : state float,
    lsl_start init = (Ret tt, s1) /\ _eeg_thread_active s1 = true /\
    started s1 = 1%nat /\
    lsl_start s1 = (Ret tt, s2) /\ started s2 = 2%nat.
Proof. by eexists _, _. Qed.

Lemma lsl_start_unguarded_witness :
  exists s',
    lsl_start scenario_ready = (Ret tt, s') /\
    started s' = S (started scenario_ready) /\
    _eeg_thread s' = Some (started scenario_ready) /\
    _eeg_thread_active s' = true /\
    channels s' = channels scenario_ready /\ heap s' = heap scenario_ready.
Proof. apply (lsl_start_unguarded scenario_ready). Defined.

(** C5, as stated, fails: with one name held and one not, the call on the
    list returns no mapping; it raises the exception of the missing name. *)
Lemma get_data_list_aborts :
  (get_data (inr ["ch"; "nope"]%string) None None store_0_to_5).1 =
    Raise (Exception "A channel with name nope does not exist").
Proof. vm_compute. reflexivity. Qed.

Lemma get_data_list_missing_channel_witness :
  exists pre m post e s' d,
    ["ch"; "nope"]%string = pre ++ m :: post /\
    (forall k, k ∈ pre -> is_Some (channels store_0_to_5 !! k)) /\
    get_data (inr pre) (Some 2) (Some 2) store_0_to_5 = (Ret (inr d), s') /\
    get_data (inl m) (Some 2) (Some 2) s' = (Raise e, s') /\
    get_data (inr ["ch"; "nope"]%string) (Some 2) (Some 2) store_0_to_5 =
      (Raise e, s') /\
    channels s' = channels store_0_to_5 /\
    (channels store_0_to_5 !! m = None ->
     e = Exception ("A channel with name " +:+ m +:+ " does not exist")).
Proof.
  apply (get_data_list_missing_channel store_0_to_5 ["ch"; "nope"]%string
           "nope" (Some 2) (Some 2)).
  - vm_compute. reflexivity.
  - apply list_elem_of_In. simpl. auto.
  - vm_compute. reflexivity.
Defined.

Lemma get_latest_data_cases_witness :
  get_latest_data (inl "ch") store_0_to_5 = (Ret (inl (VList 6)), store_0_to_5) /\
  get_latest_data (inl "ch") (empty_channel_store (T := float)) =
    (Raise IndexError, empty_channel_store) /\
  get_latest_data (inl "nope") store_0_to_5 =
    (Raise (KeyError "nope"), store_0_to_5).
Proof.
  split; [|split].
  - apply (proj1 (get_latest_data_cases store_0_to_5 "ch") 0%nat
             [VList 1; VList 2; VList 3; VList 4; VList 5] (VList 6));
      vm_compute; reflexivity.
  - apply (proj1 (proj2 (proj2 (get_latest_data_cases empty_channel_store "ch"))) 0%nat);
      vm_compute; reflexivity.
  - apply (proj2 (proj2 (proj2 (get_latest_data_cases store_0_to_5 "nope")))).
    vm_compute. reflexivity.
Defined.

Lemma get_data_beyond_last_witness :
  exists s',
    get_data (inl "ch") (Some 100) None store_0_to_5 = (Ret (inl 7%nat), s') /\
    heap s' = heap store_0_to_5 ++ [[]] /\
    channels s' = channels store_0_to_5.
Proof.
  apply (get_data_beyond_last store_0_to_5 "ch" 0 channel_0_to_5
           [0; 1; 2; 3; 4; 5] 5 100 None);
    vm_compute; reflexivity.
Defined.

Lemma get_data_empty_channel_raises_witness :
  get_data (inl "ch") (Some 100) None (empty_channel_store (T := float)) =
    (Raise IndexError, empty_channel_store).
Proof.
  apply (get_data_empty_channel_raises empty_channel_store "ch" 0);
    vm_compute; reflexivity.
Defined.

Lemma record_loop_appends_witness :
  exists s',
    record_loop scenario_pulls scenario_ready = (Ret tt, s') /\
    channels s' = channels scenario_ready /\
    forall i name, ["C1"; "C2"]%string !! i = Some name ->
      exists old bs,
        channel_data scenario_ready name = Some old /\
        channel_data s' name = Some (old ++ (VList <$> bs)) /\
        Forall2 (fun b tx => heap s' !! b = Some [VNum tx.1; VNum tx.2])
                bs (reported i scenario_pulls).
Proof.
  apply (record_loop_appends scenario_ready ["C1"; "C2"]%string
           [0; 1]%nat scenario_pulls).
  - reflexivity.
  - reflexivity.
  - repeat constructor.
  - apply (bool_decide_unpack _). vm_compute. reflexivity.
  - repeat constructor.
  - repeat constructor.
Defined.

(** The end-to-end scenario: after the three pulls and the stop, the query
    of ["C1"] returns samples timestamped 10.5, 11.5 and 12.5, in this
    order. *)
Example end_to_end_scenario :
  returned_times (end_to_end init) = Some [10.5; 11.5; 12.5] /\
  reported 0 scenario_pulls = [(10.5, 1); (11.5, 3); (12.5, 5)].
Proof. split; vm_compute; reflexivity. Qed.

Lemma find_start_linear_scan_witness :
  exists r tests,
    find_start_counting (heap store_0_to_5) channel_0_to_5 100 7 0 0 =
      (Ret r, tests) /\
    find_start (heap store_0_to_5) channel_0_to_5 100 7 0 = Ret r /\
    match r with
    | Some k =>
        tests = S k /\
        (exists t, [0; 1; 2; 3; 4; 5] !! k = Some t /\ num_gt 100 t = false) /\
        (forall i t, (i < k)%nat -> [0; 1; 2; 3; 4; 5] !! i = Some t ->
                     num_gt 100 t = true)
    | None =>
        tests = 6%nat /\
        (forall i t, [0; 1; 2; 3; 4; 5] !! i = Some t -> num_gt 100 t = true)
    end.
Proof.
  apply (find_start_linear_scan (heap store_0_to_5) channel_0_to_5
           [0; 1; 2; 3; 4; 5] 100).
  - vm_compute. reflexivity.
  - discriminate.
Defined.

Lemma repeated_heap_times n m :
  times (repeated_heap n) (replicate m (VList 1)) = Some (replicate m 0).
Proof.
  unfold times. apply mapM_Some. induction m as [|m IH]; simpl.
  - constructor.
  - by constructor.
Qed.

(** On a channel of [n] samples that all precede the start time, the
    search tests [n] timestamps. *)
Lemma late_query_tests_all n : (0 < n)%nat -> late_query_tests n = n.
Proof.
  intros Hn. unfold late_query_tests.
  pose proof (repeated_heap_times n n) as Hts.
  rewrite (find_start_counting_tests _ _ _ 1 Hts (S n) 0 0);
    rewrite length_replicate; [|lia..].
  destruct (find_start_spec (repeated_heap n) (replicate n (VList 1))
              (replicate n 0) 1 Hts (S n) 0) as (r & -> & Hr);
    rewrite ?length_replicate; [lia..|].
  destruct r as [k|]; [|lia].
  destruct Hr as (_ & (t & Ht & Hgt) & _).
  apply lookup_replicate in Ht as [-> _]. vm_compute in Hgt. discriminate.
Qed.

Lemma pow2_beats_square c : (c * (2 * c + 2) + 1 < 2 ^ (2 * c + 1))%nat.
Proof.
  induction c as [|c IH]; [simpl; lia|].
  replace (2 * S c + 1)%nat with (S (S (2 * c + 1))) by lia.
  rewrite !Nat.pow_succ_r'. lia.
Qed.

(** C9, as stated, fails: the number of tests of the search is bounded by
    no multiple of the logarithm of the channel's length. *)
Lemma find_start_not_logarithmic :
  ~ exists c, forall n, (late_query_tests n <= c * (Nat.log2 n + 1))%nat.
Proof.
  intros [c Hc]. specialize (Hc (2 ^ (2 * c + 1))%nat).
  assert (0 < 2 ^ (2 * c + 1))%nat as Hpos by (apply Nat.neq_0_lt_0, Nat.pow_nonzero; lia).
  rewrite (late_query_tests_all _ Hpos), Nat.log2_pow2 in Hc by lia.
  pose proof (pow2_beats_square c). lia.
Qed.

Example late_query_tests_16 : late_query_tests 16 = 16%nat.
Proof. vm_compute. reflexivity. Qed.
End Examples.

(** ** The further properties on the example stores *)

Section MoreExamples.
Local Open Scope float_scope.

Lemma separate_channels_intro {T} (s : state T) :
  NoDup (map_to_list (channels s)).*2 -> separate_channels s.
Proof.
  intros Hnd n1 n2 a H1 H2.
  apply elem_of_map_to_list, list_elem_of_lookup in H1 as [i Hi].
  apply elem_of_map_to_list, list_elem_of_lookup in H2 as [j Hj].
  assert (i = j) as ->.
  { eapply NoDup_lookup; [exact Hnd| |];
      rewrite list_lookup_fmap; [by rewrite Hi|by rewrite Hj]. }
  congruence.
Qed.

Local Ltac separate :=
  apply separate_channels_intro, (bool_decide_unpack _); vm_compute;
  reflexivity.

Local Ltac compute_it := vm_compute; reflexivity.

Lemma get_data_range_query_witness :
  get_data (inl "ch") (Some 2) (Some 2) store_0_to_5 =
    (Ret (inl 7%nat), with_new_lists store_0_to_5 [[VList 3; VList 4]]).
Proof.
  rewrite (get_data_range_query store_0_to_5 "ch" channel_0_to_5
             [0; 1; 2; 3; 4; 5] 2 2); try compute_it.
  discriminate.
Defined.


Lemma get_data_returns_one_run_witness :
  exists k e,
    (k <= e <= length [VList 1; VList 2; VList 3 : value float])%nat /\
    get_data (inl "ch") (Some 1) (Some 2) unsorted_store =
      (Ret (inl (length (heap unsorted_store))),
       with_new_lists unsorted_store
         [slice [VList 1; VList 2; VList 3] k e]) /\
    (forall i t, (i < k)%nat -> [2; 0; 2.5] !! i = Some t ->
       num_gt 1 t = true) /\
    (forall t, [2; 0; 2.5] !! k = Some t -> num_gt 1 t = false) /\
    (forall i t, (k <= i < e)%nat -> [2; 0; 2.5] !! i = Some t ->
       num_gt (num_add 1 2) t = true) /\
    (forall t, [2; 0; 2.5] !! e = Some t -> num_gt (num_add 1 2) t = false).
Proof.
  apply (get_data_returns_one_run unsorted_store "ch"
           [VList 1; VList 2; VList 3] [2; 0; 2.5] 1 2); try compute_it.
  discriminate.
Defined.

(** On timestamps out of order the run can hold a sample that precedes the
    start time: for the timestamps 2, 0, 2.5, start time 1 and duration 2,
    all three samples are returned. *)
Example get_data_unsorted_run :
  returned_times (get_data (inl "ch") (Some 1) (Some 2) unsorted_store) =
    Some [2; 0; 2.5].
Proof. compute_it. Qed.

Lemma get_data_list_snapshot_witness :
  exists d s',
    get_data (inr ["C1"; "C2"]%string) None None scenario_done =
      (Ret (inr d), s') /\
    (forall n, is_Some (d !! n) <-> n ∈ ["C1"; "C2"]%string) /\
    (forall n, n ∈ ["C1"; "C2"]%string ->
       exists r xs,
         d !! n = Some r /\ channel_data scenario_done n = Some xs /\
         heap s' !! r = Some xs /\ heap scenario_done !! r = None) /\
    channels s' = channels scenario_done.
Proof.
  apply (get_data_list_snapshot scenario_done ["C1"; "C2"]%string).
  intros n Hn.
  repeat (apply elem_of_cons in Hn as [->|Hn]; [eexists; compute_it|]).
  by apply elem_of_nil in Hn.
Defined.

Lemma get_data_entry_not_a_list_witness :
  get_data (inl "ch") (Some 1) None number_store = (Raise TypeError, number_store) /\
  get_data (inl "ch") None None number_store =
    (Ret (inl 1%nat), with_new_lists number_store [[VNum 5]]).
Proof.
  apply (get_data_entry_not_a_list number_store "ch" (VNum 5) [] 1 None).
  - compute_it.
  - discriminate.
Defined.

Lemma get_latest_data_list_spec_witness :
  exists d s',
    get_latest_data (inr ["ch"; "nope"]%string) store_0_to_5 =
      (Ret (inr d), s') /\
    channels s' = channels store_0_to_5 /\
    stdout s' =
      stdout store_0_to_5 ++
        (missing_line <$>
           filter (fun n => channels store_0_to_5 !! n = None)
                  ["ch"; "nope"]%string) /\
    (forall n, is_Some (d !! n) <->
               n ∈ ["ch"; "nope"]%string /\
               is_Some (channels store_0_to_5 !! n)) /\
    (forall n xs x, n ∈ ["ch"; "nope"]%string ->
       channel_data store_0_to_5 n = Some (xs ++ [x]) -> d !! n = Some x) /\
    (forall n, n ∈ ["ch"; "nope"]%string ->
       channel_data store_0_to_5 n = Some [] ->
       exists e, d !! n = Some (VList e) /\
                 heap s' !! e = Some [] /\ heap store_0_to_5 !! e = None).
Proof.
  apply (get_latest_data_list_spec store_0_to_5 ["ch"; "nope"]%string).
  compute_it.
Defined.

Lemma has_data_spec_witness :
  has_data "ch" store_0_to_5 = (Ret true, store_0_to_5) /\
  has_data "nope" store_0_to_5 = (Ret false, store_0_to_5) /\
  has_data "ch" (empty_channel_store (T := float)) =
    (Ret false, empty_channel_store).
Proof.
  split; [|split].
  - rewrite (has_data_spec store_0_to_5 "ch"); compute_it.
  - rewrite (has_data_spec store_0_to_5 "nope"); compute_it.
  - rewrite (has_data_spec empty_channel_store "ch"); compute_it.
Defined.

Lemma add_channel_creates_empty_witness :
  exists s',
    add_channel "new" store_0_to_5 = (Ret tt, s') /\
    channel_data s' "new" = Some [] /\
    (forall n xs, channel_data store_0_to_5 n = Some xs ->
       channel_data s' n = Some xs) /\
    (forall n, n <> "new"%string ->
       channels s' !! n = channels store_0_to_5 !! n) /\
    stdout s' = stdout store_0_to_5.
Proof.
  apply (add_channel_creates_empty store_0_to_5 "new"). compute_it.
Defined.

Lemma remove_channel_then_query_witness :
  exists s',
    remove_channel "ch" store_0_to_5 = (Ret tt, s') /\
    get_data (inl "ch") (Some 2) None s' =
      (Raise (Exception (missing_line "ch")), s') /\
    has_data "ch" s' = (Ret false, s') /\
    (forall n, n <> "ch"%string ->
       channel_data s' n = channel_data store_0_to_5 n) /\
    stdout s' = stdout store_0_to_5.
Proof.
  apply (remove_channel_then_query store_0_to_5 "ch" (Some 2) None).
  eexists. compute_it.
Defined.

Lemma add_then_remove_channel_witness :
  exists s1,
    add_channel "new" store_0_to_5 = (Ret tt, s1) /\
    remove_channel "new" s1 = (Ret tt, with_new_lists store_0_to_5 [[]]).
Proof.
  apply (add_then_remove_channel store_0_to_5 "new"). compute_it.
Defined.

Lemma add_data_appends_to_one_channel_witness :
  exists s',
    add_data "C1" (VNum 1) scenario_ready = (Ret tt, s') /\
    channel_data s' "C1" = Some ([] ++ [VNum 1]) /\
    (forall n, n <> "C1"%string ->
       channel_data s' n = channel_data scenario_ready n) /\
    channels s' = channels scenario_ready /\
    stdout s' = stdout scenario_ready.
Proof.
  apply (add_data_appends_to_one_channel scenario_ready "C1" [] (VNum 1)).
  - separate.
  - compute_it.
Defined.

Lemma record_thread_appends_witness :
  exists s',
    _record_lsl_data_indefinitely scenario_pulls scenario_started =
      (Ret tt, s') /\
    forall i name, ["C1"; "C2"]%string !! i = Some name ->
      exists bs,
        channel_data s' name =
          Some (default [] (channel_data scenario_started name) ++
                (VList <$> bs)) /\
        Forall2 (fun b tx => heap s' !! b = Some [VNum tx.1; VNum tx.2])
                bs (reported i scenario_pulls).
Proof.
  apply (record_thread_appends scenario_started ["C1"; "C2"]%string
           scenario_pulls); try compute_it.
  - separate.
  - apply (bool_decide_unpack _). compute_it.
  - repeat constructor.
Defined.

Lemma record_then_range_query_witness :
  exists s1 xs s2 r ys,
    record_loop scenario_pulls scenario_ready = (Ret tt, s1) /\
    channel_data s1 "C1" = Some xs /\
    times (heap s1) xs = Some ([] ++ (reported 0 scenario_pulls).*1) /\
    get_data (inl "C1") (Some 11) (Some 1) s1 = (Ret (inl r), s2) /\
    heap s2 !! r = Some ys /\
    times (heap s2) ys =
      Some (List.filter
              (fun t => negb (num_gt 11 t) && num_gt (num_add 11 1) t)
              ([] ++ (reported 0 scenario_pulls).*1)).
Proof.
  apply (record_then_range_query scenario_ready ["C1"; "C2"]%string
           [0; 1]%nat scenario_pulls 0 "C1" [] [] 11 1); try compute_it.
  - repeat constructor.
  - apply (bool_decide_unpack _). compute_it.
  - repeat constructor.
  - repeat constructor.
  - vm_compute. discriminate.
Defined.

(** In the scenario the window from 11 to 12 holds the one sample
    timestamped 11.5. *)
Example record_then_range_query_scenario :
  List.filter (fun t => negb (num_gt 11 t) && num_gt (num_add 11 1) t)
    ([] ++ (reported 0 scenario_pulls).*1) = [11.5].
Proof. compute_it. Qed.

Lemma get_eeg_data_after_recording_witness :
  (forall (s0 : state float) start_time duration,
     _eeg_channel_names s0 = None ->
     get_eeg_data start_time duration s0 =
       (Raise (Exception "A channel with name None does not exist"), s0)) /\
  exists s1 d s2,
    _record_lsl_data_indefinitely scenario_pulls scenario_started =
      (Ret tt, s1) /\
    get_eeg_data None None s1 = (Ret (inr d), s2) /\
    (forall n, is_Some (d !! n) <-> n ∈ ["C1"; "C2"]%string) /\
    (forall n, n ∈ ["C1"; "C2"]%string ->
       exists r xs,
         d !! n = Some r /\ channel_data s1 n = Some xs /\
         heap s2 !! r = Some xs /\ heap s1 !! r = None).
Proof.
  apply (get_eeg_data_after_recording scenario_started ["C1"; "C2"]%string
           scenario_pulls); try compute_it.
  - separate.
  - apply (bool_decide_unpack _). compute_it.
  - repeat constructor.
Defined.

Lemma record_loop_more_values_than_names_witness :
  exists s',
    record_loop [Pull [1; 2; 3] 10 0.5] scenario_ready =
      (Raise IndexError, s') /\
    channels s' = channels scenario_ready /\
    forall i name, ["C1"; "C2"]%string !! i = Some name ->
      exists old x,
        channel_data scenario_ready name = Some old /\
        [1; 2; 3] !! i = Some x /\
        channel_data s' name =
          Some (old ++ [VList (length (heap scenario_ready) + i)]) /\
        heap s' !! (length (heap scenario_ready) + i)%nat =
          Some [VNum (num_add 10 0.5); VNum x].
Proof.
  apply (record_loop_more_values_than_names scenario_ready
           ["C1"; "C2"]%string [0; 1]%nat (Pull [1; 2; 3] 10 0.5) []);
    try compute_it.
  - repeat constructor.
  - apply (bool_decide_unpack _). compute_it.
  - repeat constructor.
Defined.


(** In the scenario, with [lsl_stop] called during the first pull: the
    samples of that pull, timestamped 10.5, are in the channels, those of
    the second pull are not. *)
Example lsl_stop_during_pull_scenario :
  let s' := (record_loop_with_stops
               [(Pull [1; 2] 10 0.5, true); (Pull [3; 4] 11 0.5, false)]
               scenario_ready).2 in
  (xs ← channel_data s' "C1"; times (heap s') xs) = Some [10.5] /\
  (xs ← channel_data s' "C2"; times (heap s') xs) = Some [10.5] /\
  (xs ← channel_data (lsl_stop scenario_ready).2 "C1";
   times (heap scenario_ready) xs) = Some [].
Proof. repeat split; compute_it. Qed.

(** [stream.add_channel("ch"); stream.add_data("ch", [1.0, 7.0])] on a new
    stream are steps the caller can make, and leave the sample in the
    channel. *)
Example add_data_with_a_new_sample :
  exists s,
    perform_all [AddChannel "ch"; NewList [VNum 1; VNum 7];
                 AddData "ch" (VList 1)] init = Some s /\
    channel_data s "ch" = Some [VList 1] /\
    heap s !! 1%nat = Some [VNum 1; VNum 7].
Proof. eexists. repeat split; compute_it. Qed.

Lemma methods_keep_channels_apart_witness :
  well_formed (fold_left (fun s c => perform c s) example_calls init) = true /\
  separate_channels (fold_left (fun s c => perform c s) example_calls init).
Proof.
  apply (methods_keep_channels_apart example_calls). compute_it.
Defined.
End MoreExamples.
